(** * aix_cpu_watch: the CPU-watch event source of ibm.power_aix

    A shallow embedding of
    [plugins/event_source/aix_cpu_watch.py]: the vmstat sampler
    [_compute_cpu_usage_from_vmstat], the SSH session [_SSHClient]
    ([connect], [run], [close]) and the poller [AIXCPUWatch.run] with its
    per-host task [poll_one] and the loop over the sessions of its
    [finally] clause, followed by the properties of the specification
    that were checked against it.

    Conventions of the embedding.
    - A Python [str] is a list of Unicode code points ([pystr]), a
      [bytes] object a list of bytes.
    - A Python [float] is an IEEE 754 binary64 value, [spec_float] of the
      standard library with [prec = 53] and [emax = 1024].
    - A Python [dict] built by a literal is an association list in
      insertion order; [self.clients] is a finite map keyed by host name.
    - Everything outside the process (paramiko, the clock, the task being
      cancelled, the order in which the worker threads finish) is an
      explicit environment argument, and every function that talks to
      paramiko returns the list of calls it made. *)

From Stdlib Require Import ZArith List Lia Bool String Ascii SpecFloat.
From Stdlib Require Strings.Byte.
From stdpp Require Import base list gmap.

Set Default Proof Using "Type".
Local Open Scope Z_scope.

(* ===================================================================== *)
(** * Strings *)
(* ===================================================================== *)

Module PyStr.

(** A code point, 0 .. 0x10FFFF. *)
Abbreviation codepoint := N (only parsing).
Abbreviation pystr := (list N) (only parsing).

(** An ASCII literal of the source as a [pystr]. *)
Definition str (s : string) : pystr :=
  List.map N_of_ascii (list_ascii_of_string s).

Definition in_range (c : codepoint) (r : N * N) : bool :=
  ((fst r <=? c) && (c <=? snd r))%N.

Definition in_ranges (rs : list (N * N)) (c : codepoint) : bool :=
  existsb (in_range c) rs.

(** [str.isspace] on one character: the characters [str.split] and
    [str.strip] treat as whitespace when called without argument. *)
Definition whitespace_ranges : list (N * N) :=
  [ (0x09, 0x0d); (0x1c, 0x20); (0x85, 0x85); (0xa0, 0xa0);
    (0x1680, 0x1680); (0x2000, 0x200a); (0x2028, 0x2029);
    (0x202f, 0x202f); (0x205f, 0x205f); (0x3000, 0x3000) ]%N.

Definition isspace (c : codepoint) : bool := in_ranges whitespace_ranges c.

(** The line boundaries of [str.splitlines] other than the pair CR LF. *)
Definition linebreak_ranges : list (N * N) :=
  [ (0x0a, 0x0d); (0x1c, 0x1e); (0x85, 0x85); (0x2028, 0x2029) ]%N.

Definition is_linebreak (c : codepoint) : bool := in_ranges linebreak_ranges c.

(** First code point of each run of ten decimal digits (general
    category Nd, Unicode 14): the run starting at [s] holds the digits
    of value 0 .. 9 at [s] .. [s + 9]. *)
Definition decimal_starts : list N :=
  [ 0x30; 0x660; 0x6f0; 0x7c0; 0x966; 0x9e6; 0xa66; 0xae6; 0xb66; 0xbe6;
    0xc66; 0xce6; 0xd66; 0xde6; 0xe50; 0xed0; 0xf20; 0x1040; 0x1090;
    0x17e0; 0x1810; 0x1946; 0x19d0; 0x1a80; 0x1a90; 0x1b50; 0x1bb0;
    0x1c40; 0x1c50; 0xa620; 0xa8d0; 0xa900; 0xa9d0; 0xa9f0; 0xaa50;
    0xabf0; 0xff10; 0x104a0; 0x10d30; 0x11066; 0x110f0; 0x11136;
    0x111d0; 0x112f0; 0x11450; 0x114d0; 0x11650; 0x116c0; 0x11730;
    0x118e0; 0x11950; 0x11c50; 0x11d50; 0x11da0; 0x16a60; 0x16ac0;
    0x16b50; 0x1d7ce; 0x1d7d8; 0x1d7e2; 0x1d7ec; 0x1d7f6; 0x1e140;
    0x1e2f0; 0x1e950; 0x1fbf0 ]%N.

(** Characters with Numeric_Type=Digit that are not decimal digits
    (superscripts, subscripts, circled digits, ...): [str.isdigit]
    accepts them, [float] and [int] do not. *)
Definition digit_only_ranges : list (N * N) :=
  [ (0xb2, 0xb3); (0xb9, 0xb9); (0x1369, 0x1371); (0x19da, 0x19da);
    (0x2070, 0x2070); (0x2074, 0x2079); (0x2080, 0x2089);
    (0x2460, 0x2468); (0x2474, 0x247c); (0x2488, 0x2490);
    (0x24ea, 0x24ea); (0x24f5, 0x24fd); (0x24ff, 0x24ff);
    (0x2776, 0x277e); (0x2780, 0x2788); (0x278a, 0x2792);
    (0x10a40, 0x10a43); (0x10e60, 0x10e68); (0x11052, 0x1105a);
    (0x1f100, 0x1f10a) ]%N.

(** The value of a decimal digit, [None] for any other character. *)
Fixpoint decimal_in (starts : list N) (c : codepoint) : option N :=
  match starts with
  | [] => None
  | s :: rest =>
      if ((s <=? c) && (c <=? s + 9))%N then Some (c - s)%N
      else decimal_in rest c
  end.

Definition decimal_value (c : codepoint) : option N :=
  decimal_in decimal_starts c.

Definition isdecimal_char (c : codepoint) : bool :=
  match decimal_value c with Some _ => true | None => false end.

Definition isdigit_char (c : codepoint) : bool :=
  isdecimal_char c || in_ranges digit_only_ranges c.

Definition is_empty (s : pystr) : bool :=
  match s with [] => true | _ => false end.

(** [s.isdigit()]: at least one character, and all of them digits. *)
Definition isdigit (s : pystr) : bool :=
  negb (is_empty s) && forallb isdigit_char s.

Definition dot : codepoint := 46%N.

(** [s.replace('.', '', 1)]: the first point, if any, is removed. *)
Fixpoint replace_first_dot (s : pystr) : pystr :=
  match s with
  | [] => []
  | c :: s' => if (c =? dot)%N then s' else c :: replace_first_dot s'
  end.

Fixpoint lstrip (s : pystr) : pystr :=
  match s with
  | [] => []
  | c :: s' => if isspace c then lstrip s' else s
  end.

(** [s.strip()]. *)
Definition strip (s : pystr) : pystr := rev (lstrip (rev (lstrip s))).

(** [s.split()]: the maximal runs of non-whitespace characters, in
    order; [cur] is the run being read, reversed. *)
Fixpoint split_from (cur : pystr) (s : pystr) : list pystr :=
  match s with
  | [] => match cur with [] => [] | _ => [rev cur] end
  | c :: s' =>
      if isspace c
      then match cur with
           | [] => split_from [] s'
           | _ => rev cur :: split_from [] s'
           end
      else split_from (c :: cur) s'
  end.

Definition split (s : pystr) : list pystr := split_from [] s.

(** [s.splitlines()]: CR LF counts as one boundary, and no empty
    string follows a final boundary. *)
Fixpoint splitlines_from (cur : pystr) (s : pystr) : list pystr :=
  match s with
  | [] => match cur with [] => [] | _ => [rev cur] end
  | c :: s' =>
      if (c =? 0x0d)%N
      then match s' with
           | c' :: s'' =>
               if (c' =? 0x0a)%N then rev cur :: splitlines_from [] s''
               else rev cur :: splitlines_from [] s'
           | [] => rev cur :: splitlines_from [] s'
           end
      else if is_linebreak c then rev cur :: splitlines_from [] s'
      else splitlines_from (c :: cur) s'
  end.

Definition splitlines (s : pystr) : list pystr := splitlines_from [] s.

(** [l[-n:]] for a list. *)
Definition last_n {A} (n : nat) (l : list A) : list A :=
  skipn (length l - n)%nat l.

End PyStr.
Export PyStr.

(* ===================================================================== *)
(** * Bytes *)
(* ===================================================================== *)

Module PyBytes.

(** A [bytes] object. *)
Abbreviation bytes := (list Byte.byte) (only parsing).

(** A continuation byte, [10xxxxxx]. *)
Definition is_continuation (c : N) : bool := ((0x80 <=? c) && (c <=? 0xbf))%N.

(** The second byte of a three-byte sequence that starts with [c0]:
    after [E0] it must be [A0] or more (else the form is overlong),
    after [ED] less than [A0] (else the code point is a surrogate). *)
Definition second_of_three (c0 c1 : N) : bool :=
  (is_continuation c1 &&
   negb (if c1 <? 0xa0 then c0 =? 0xe0 else c0 =? 0xed))%N.

(** The second byte of a four-byte sequence that starts with [c0]:
    after [F0] it must be [90] or more (else the form is overlong),
    after [F4] less than [90] (else the code point is above 10FFFF). *)
Definition second_of_four (c0 c1 : N) : bool :=
  (is_continuation c1 &&
   negb (if c1 <? 0x90 then c0 =? 0xf0 else c0 =? 0xf4))%N.

Definition low6 (c : N) : N := N.land c 0x3f.

(** [bs.decode(errors="ignore")], the encoding being UTF-8: a byte that
    cannot start a sequence is dropped; a sequence broken by a byte that
    cannot continue it is dropped up to that byte, from which decoding
    goes on; a sequence cut short by the end of the data is dropped. *)
Fixpoint decode_ignore (bs : list Byte.byte) : pystr :=
  match bs with
  | [] => []
  | b0 :: r0 =>
      let c0 := Byte.to_N b0 in
      if (c0 <? 0x80)%N then c0 :: decode_ignore r0
      else if (c0 <? 0xc2)%N then decode_ignore r0
      else if (c0 <? 0xe0)%N then
        match r0 with
        | [] => []
        | b1 :: r1 =>
            let c1 := Byte.to_N b1 in
            if is_continuation c1
            then N.lor (N.shiftl (N.land c0 0x1f) 6) (low6 c1) :: decode_ignore r1
            else decode_ignore r0
        end
      else if (c0 <? 0xf0)%N then
        match r0 with
        | [] => []
        | b1 :: r1 =>
            let c1 := Byte.to_N b1 in
            if second_of_three c0 c1 then
              match r1 with
              | [] => []
              | b2 :: r2 =>
                  let c2 := Byte.to_N b2 in
                  if is_continuation c2
                  then N.lor (N.shiftl (N.land c0 0x0f) 12)
                             (N.lor (N.shiftl (low6 c1) 6) (low6 c2))
                       :: decode_ignore r2
                  else decode_ignore r1
              end
            else decode_ignore r0
        end
      else if (c0 <? 0xf5)%N then
        match r0 with
        | [] => []
        | b1 :: r1 =>
            let c1 := Byte.to_N b1 in
            if second_of_four c0 c1 then
              match r1 with
              | [] => []
              | b2 :: r2 =>
                  let c2 := Byte.to_N b2 in
                  if is_continuation c2 then
                    match r2 with
                    | [] => []
                    | b3 :: r3 =>
                        let c3 := Byte.to_N b3 in
                        if is_continuation c3
                        then N.lor (N.shiftl (N.land c0 0x07) 18)
                                   (N.lor (N.shiftl (low6 c1) 12)
                                          (N.lor (N.shiftl (low6 c2) 6) (low6 c3)))
                             :: decode_ignore r3
                        else decode_ignore r2
                    end
                  else decode_ignore r1
              end
            else decode_ignore r0
        end
      else decode_ignore r0
  end.

(** The byte of value [n], for [n] below 256. *)
Definition byte_of_N (n : N) : Byte.byte := default Byte.x00 (Byte.of_N n).

(** The UTF-8 form of one code point. *)
Definition encode_char (c : N) : list Byte.byte :=
  if (c <? 0x80)%N then [byte_of_N c]
  else if (c <? 0x800)%N then
    [byte_of_N (N.lor 0xc0 (N.shiftr c 6)); byte_of_N (N.lor 0x80 (low6 c))]
  else if (c <? 0x10000)%N then
    [byte_of_N (N.lor 0xe0 (N.shiftr c 12));
     byte_of_N (N.lor 0x80 (low6 (N.shiftr c 6)));
     byte_of_N (N.lor 0x80 (low6 c))]
  else
    [byte_of_N (N.lor 0xf0 (N.shiftr c 18));
     byte_of_N (N.lor 0x80 (low6 (N.shiftr c 12)));
     byte_of_N (N.lor 0x80 (low6 (N.shiftr c 6)));
     byte_of_N (N.lor 0x80 (low6 c))].

(** The UTF-8 form of a text. *)
Definition utf8_encode (s : pystr) : list Byte.byte := flat_map encode_char s.

End PyBytes.
Export PyBytes.

(* ===================================================================== *)
(** * Floats *)
(* ===================================================================== *)

Module PyFloat.

(** Python's [float] is the IEEE 754 binary64 format. *)
Definition prec : Z := 53.
Definition emax : Z := 1024.

Abbreviation float := spec_float (only parsing).

Definition fzero : float := S754_zero false.

(** [x + y] and [x - y], rounded to nearest, ties to even. *)
Definition fadd (x y : float) : float := SFadd prec emax x y.
Definition fsub (x y : float) : float := SFsub prec emax x y.

(** [x >= y], [x > y] and [x == y]; all false when an operand is NaN. *)
Definition fge (x y : float) : bool := SFleb y x.
Definition fgt (x y : float) : bool := SFltb y x.
Definition feq (x y : float) : bool := SFeqb x y.

(** The binary64 value nearest to the rational [n / d] (ties to even,
    infinity on overflow), with sign [s]: the correctly rounded quotient
    of the two integers. *)
Definition float_of_ratio (s : bool) (n : N) (d : positive) : float :=
  match n with
  | N0 => S754_zero s
  | Npos p => SFdiv prec emax (S754_finite s p 0) (S754_finite false d 0)
  end.

(** The number read from a string of decimal digits, most significant
    digit first; [None] when a character is not a decimal digit. *)
Fixpoint digits_value (acc : N) (s : pystr) : option N :=
  match s with
  | [] => Some acc
  | c :: s' =>
      match decimal_value c with
      | Some d => digits_value (10 * acc + d)%N s'
      | None => None
      end
  end.

(** What follows the first point of [s], if [s] has one. *)
Fixpoint after_first_dot (s : pystr) : option pystr :=
  match s with
  | [] => None
  | c :: s' => if (c =? dot)%N then Some s' else after_first_dot s'
  end.

Definition frac_digits (t : pystr) : nat :=
  match after_first_dot t with Some r => length r | None => 0%nat end.

Fixpoint pow10 (k : nat) : positive :=
  match k with
  | O => 1%positive
  | S k' => (10 * pow10 k')%positive
  end.

(** [float(t)] for the strings the sampler converts: digits with at
    most one point ([isdigit (replace_first_dot t)] holds of each, see
    [converted_tokens_filtered] below).  On such a string [float]
    succeeds exactly when every digit is a decimal digit, and returns the
    binary64 value nearest to the decimal number; [None] stands for the
    [ValueError] it raises otherwise.  Signs, exponents, [inf], [nan] and
    underscores, which [float] also reads, cannot occur in such a
    string. *)
Definition float_of_token (t : pystr) : option float :=
  let body := replace_first_dot t in
  if is_empty body then None
  else match digits_value 0 body with
       | Some n => Some (float_of_ratio false n (pow10 (frac_digits t)))
       | None => None
       end.

(** [n / d] rounded to the nearest integer, ties to even ([0 <= n], [0 < d]). *)
Definition round_half_even_div (n d : Z) : Z :=
  let q := n / d in
  match 2 * (n mod d) ?= d with
  | Lt => q
  | Gt => q + 1
  | Eq => if Z.even q then q else q + 1
  end.

(** [round(x, ndigits)] for a float [x] and [0 <= ndigits]: the exact
    value of [x] is rounded to the nearest multiple of [10^-ndigits],
    ties to even, and the float nearest to that decimal is returned;
    zeros, infinities and NaN are returned unchanged (CPython,
    [float.__round__] by way of correctly rounded decimal conversion). *)
Definition py_round (x : float) (ndigits : nat) : float :=
  match x with
  | S754_finite s m e =>
      let p := Zpos (pow10 ndigits) in
      let n := match e with
               | Zneg k => round_half_even_div (Zpos m * p) (2 ^ Zpos k)
               | _ => Zpos m * p * 2 ^ e
               end in
      float_of_ratio s (Z.to_N n) (pow10 ndigits)
  | _ => x
  end.

(** [float(z)] for an [int]: the nearest float, ties to even; [None]
    stands for the [OverflowError] raised when that is out of range. *)
Definition float_of_int (z : Z) : option float :=
  match binary_normalize prec emax z 0 false with
  | S754_infinity _ => None
  | f => Some f
  end.

End PyFloat.
Export PyFloat.

(* ===================================================================== *)
(** * Exceptions and results *)
(* ===================================================================== *)

Module PyExn.

(** The classes of the exceptions that occur.  The first four are the
    ones paramiko and the socket layer raise for the failures the
    specification names: a transport or protocol failure, a rejected
    authentication, a connection failure, a timeout.  All are subclasses
    of [Exception] except [CancelledError], which derives from
    [BaseException] and is raised at an [await] of a cancelled task. *)
Inductive exn_class :=
| SSHException
| AuthenticationException
| SocketError
| SocketTimeout
| RuntimeError
| ValueError
| IndexError
| AttributeError
| KeyError
| OverflowError
| CancelledError.

(** The text of an exception, [str(e)].  The two messages built with
    [{x!r}] are kept as the text before it and the string [x] whose
    [repr] follows. *)
Inductive message :=
| Text (s : pystr)
| TextRepr (s : pystr) (x : pystr).

Record exn := Exc { exc_class : exn_class; exc_msg : message }.

(** [isinstance(e, Exception)]: what [except Exception] catches. *)
Definition is_Exception (e : exn) : bool :=
  match exc_class e with
  | CancelledError => false
  | _ => true
  end.

Inductive result (A : Type) :=
| Ok (a : A)
| Err (e : exn).
Arguments Ok {A} a.
Arguments Err {A} e.

End PyExn.
Export PyExn.

(* ===================================================================== *)
(** * The sampler *)
(* ===================================================================== *)

Module Sampler.

(** The dict [{"us": .., "sy": .., "id": .., "wa": .., "usage": ..}]. *)
Record Reading := mkReading {
  cpu_us : float;
  cpu_sy : float;
  cpu_id : float;
  cpu_wa : float;
  cpu_usage : float
}.

(** [t.replace('.', '', 1).isdigit()] *)
Definition is_numeric_token (t : pystr) : bool :=
  isdigit (replace_first_dot t).

(** [[t for t in line.strip().split() if t.replace('.', '', 1).isdigit()]] *)
Definition numeric_tokens (line : pystr) : list pystr :=
  List.filter is_numeric_token (split (strip line)).

(** [float(t)] raising [ValueError] where it fails. *)
Definition py_float (t : pystr) : result float :=
  match float_of_token t with
  | Some f => Ok f
  | None => Err (Exc ValueError (TextRepr (str "could not convert string to float: ") t))
  end.

(** [map(float, ts)] consumed from left to right: the first failing
    conversion raises. *)
Fixpoint map_float (ts : list pystr) : result (list float) :=
  match ts with
  | [] => Ok []
  | t :: ts' =>
      match py_float t with
      | Err e => Err e
      | Ok f =>
          match map_float ts' with
          | Err e => Err e
          | Ok fs => Ok (f :: fs)
          end
      end
  end.

Definition _compute_cpu_usage_from_vmstat (line : pystr) : result Reading :=
  let toks := numeric_tokens line in
  if (length toks <? 4)%nat
  then Err (Exc ValueError (TextRepr (str "Unexpected vmstat output: ") line))
  else
    match map_float (last_n 4 toks) with
    | Err e => Err e
    | Ok [us; sy; idl; wa] =>
        let usage := fadd (fadd us sy) wa in
        Ok (mkReading us sy idl wa usage)
    | Ok _ =>
        (* not reached: [toks[-4:]] has four elements here *)
        Err (Exc ValueError (Text (str "not enough values to unpack")))
    end.

End Sampler.
Export Sampler.

(* ===================================================================== *)
(** * The SSH session *)
(* ===================================================================== *)

Module Session.

(** A private key object returned by [from_private_key_file]. *)
Inductive key_type := RSAKey | ECDSAKey.
Record pkey := mkPkey { pk_type : key_type; pk_path : pystr }.

(** The [paramiko.SSHClient] object held in [self._client].  The object
    is opaque to the program (it is only tested for truth and called);
    [h_connected] records whether its [connect] has returned normally. *)
Record handle := mkHandle { h_connected : bool }.

(** The arguments of [self._client.connect(...)]. *)
Record connect_args := mkConnectArgs {
  ca_host : pystr;
  ca_port : Z;
  ca_username : pystr;
  ca_password : option pystr;
  ca_pkey : option pkey;
  ca_look_for_keys : bool;
  ca_allow_agent : bool;
  ca_timeout : Z
}.

(** What the remote side answers to [exec_command] followed by
    [stdout.read()] and [stderr.read()]: an exception raised by one of
    the three calls, or the bytes read from the two streams. *)
Inductive exec_outcome :=
| ExecRaises (e : exn)
| ExecOutput (out err : bytes).

(** The calls made to paramiko, in order. *)
Inductive action :=
| ANewClient
| ALoadRSA (path : pystr)
| ALoadECDSA (path : pystr)
| AConnect (args : connect_args)
| AExec (h : handle) (cmd : pystr) (timeout : Z)
| AClose (h : handle).

(** The world outside the process, as seen by one call of a method:
    [None] is a normal return of the paramiko call, [Some e] the
    exception it raises. *)
Record env := mkEnv {
  load_rsa : pystr -> option pkey;
  load_ecdsa : pystr -> option pkey;
  do_connect : connect_args -> option exn;
  do_exec : handle -> pystr -> Z -> exec_outcome;
  do_close : handle -> option exn
}.

(** The instance attributes of [_SSHClient]. *)
Record _SSHClient := mkSSHClient {
  host : pystr;
  username : pystr;
  port : Z;
  key_path : option pystr;
  password : option pystr;
  timeout : Z;
  _client : option handle
}.

Definition set_client (self : _SSHClient) (c : option handle) : _SSHClient :=
  mkSSHClient (host self) (username self) (port self) (key_path self)
              (password self) (timeout self) c.

(** [_SSHClient.__init__] *)
Definition init (host username : pystr) (port : Z)
    (key_path password : option pystr) (timeout : Z) : _SSHClient :=
  mkSSHClient host username port key_path password timeout None.

(** The truth value of an optional string: [None] and [""] are false. *)
Definition truthy (s : option pystr) : bool :=
  match s with
  | Some (_ :: _) => true
  | _ => false
  end.

(** The [if self.key_path:] block of [connect]: the key that was loaded,
    if any, and the loading calls that were made. *)
Definition load_key (w : env) (self : _SSHClient) : option pkey * list action :=
  match key_path self with
  | Some p =>
      if truthy (Some p) then
        match load_rsa w p with
        | Some k => (Some k, [ALoadRSA p])
        | None =>
            match load_ecdsa w p with
            | Some k => (Some k, [ALoadRSA p; ALoadECDSA p])
            | None => (None, [ALoadRSA p; ALoadECDSA p])
            end
        end
      else (None, [])
  | None => (None, [])
  end.

(** The arguments [connect] passes on once the key is settled. *)
Definition connect_call (self : _SSHClient) (k : option pkey) : connect_args :=
  mkConnectArgs (host self) (port self) (username self)
    (match k with Some _ => None | None => password self end)
    k false true (timeout self).

(** [_SSHClient.connect]: the result, the object afterwards and the
    calls made.  [self._client] is assigned before the key is loaded and
    before [self._client.connect] is called.  The call of
    [set_missing_host_key_policy], which returns nothing and changes
    nothing the program reads, is left out of the calls. *)
Definition connect (w : env) (self : _SSHClient)
    : result unit * _SSHClient * list action :=
  match _client self with
  | Some _ => (Ok tt, self, [])
  | None =>
      let self1 := set_client self (Some (mkHandle false)) in
      let '(k, loads) := load_key w self1 in
      let args := connect_call self1 k in
      let calls := ANewClient :: loads ++ [AConnect args] in
      match do_connect w args with
      | None => (Ok tt, set_client self1 (Some (mkHandle true)), calls)
      | Some e => (Err e, self1, calls)
      end
  end.

(** The [RuntimeError] of [run]. *)
Definition command_error (self : _SSHClient) (err : pystr) : exn :=
  Exc RuntimeError
      (Text (str "Command error on " ++ host self ++ str ": " ++ strip err)).

(** [_SSHClient.run]: the bytes read from the two streams are decoded,
    undecodable bytes being dropped, and the test [err and not out] is
    made on the decoded texts. *)
Definition run (w : env) (self : _SSHClient) (cmd : pystr)
    : result pystr * _SSHClient * list action :=
  let '(r, self1, calls) :=
    match _client self with
    | None => connect w self
    | Some _ => (Ok tt, self, [])
    end in
  match r with
  | Err e => (Err e, self1, calls)
  | Ok _ =>
      match _client self1 with
      | None =>
          (* not reached: [connect] returned, so [self._client] is set *)
          (Err (Exc AttributeError (Text (str "'NoneType' object has no attribute 'exec_command'"))),
           self1, calls)
      | Some h =>
          let calls' := calls ++ [AExec h cmd (timeout self1)] in
          match do_exec w h cmd (timeout self1) with
          | ExecRaises e => (Err e, self1, calls')
          | ExecOutput out_bytes err_bytes =>
              let out := decode_ignore out_bytes in
              let err := decode_ignore err_bytes in
              if negb (is_empty err) && is_empty out
              then (Err (command_error self1 err), self1, calls')
              else (Ok out, self1, calls')
          end
      end
  end.

(** The session object while the thread that executes [run] on it is
    under way, the calls [done] having returned: [self._client] is
    assigned once [paramiko.SSHClient()] has returned, and the handle is
    a connected one once its [connect] has returned normally. *)
Definition session_after (w : env) (self : _SSHClient) (done : list action)
    : _SSHClient :=
  fold_left (fun s a =>
               match a with
               | ANewClient => set_client s (Some (mkHandle false))
               | AConnect args =>
                   match do_connect w args with
                   | None => set_client s (Some (mkHandle true))
                   | Some _ => s
                   end
               | _ => s
               end)
            done self.

(** [_SSHClient.close]: the [finally] clause clears [self._client]
    whether or not the handle's [close] raised. *)
Definition close (w : env) (self : _SSHClient)
    : result unit * _SSHClient * list action :=
  match _client self with
  | Some h =>
      match do_close w h with
      | None => (Ok tt, set_client self None, [AClose h])
      | Some e => (Err e, set_client self None, [AClose h])
      end
  | None => (Ok tt, set_client self None, [])
  end.

End Session.
Export Session.

(* ===================================================================== *)
(** * The poller *)
(* ===================================================================== *)

Module Poller.

(** The values that occur in an event. *)
#[local] Unset Elimination Schemes.
Inductive pyval :=
| VStr (s : pystr)
| VMsg (m : message)
| VFloat (f : float)
| VBool (b : bool)
| VDict (d : list (pystr * pyval)).
#[local] Set Elimination Schemes.

(** [d[k]] for a dict literal: the value of the first entry with key [k]. *)
Fixpoint dict_get (d : list (pystr * pyval)) (k : pystr) : option pyval :=
  match d with
  | [] => None
  | (k', v) :: d' => if decide (k' = k) then Some v else dict_get d' k
  end.

Definition keys (v : pyval) : list pystr :=
  match v with
  | VDict d => List.map fst d
  | _ => []
  end.

Definition field (v : pyval) (k : string) : option pyval :=
  match v with
  | VDict d => dict_get d (str k)
  | _ => None
  end.

(** The arguments of [AIXCPUWatch.run] other than the host list. *)
Record config := mkConfig {
  interval : Z;
  threshold : float;
  emit_only_above : bool;
  sample_cmd : pystr
}.

(** The [event] dict of [poll_one]; [ts] is
    [datetime.now(timezone.utc).isoformat()]. *)
Definition success_event (ts hostname : pystr) (cpu : Reading)
    (thr : float) (crossed : bool) : pyval :=
  VDict [ (str "timestamp", VStr ts);
          (str "host", VStr hostname);
          (str "cpu", VDict [ (str "percent", VFloat (py_round (cpu_usage cpu) 2));
                              (str "us", VFloat (cpu_us cpu));
                              (str "sy", VFloat (cpu_sy cpu));
                              (str "id", VFloat (cpu_id cpu));
                              (str "wa", VFloat (cpu_wa cpu)) ]);
          (str "threshold", VFloat thr);
          (str "crossed", VBool crossed);
          (str "source", VStr (str "aix_cpu_watch")) ].

(** The [err_event] dict of [poll_one]; [VMsg (exc_msg e)] is [str(e)]. *)
Definition error_event (ts hostname : pystr) (e : exn) : pyval :=
  VDict [ (str "timestamp", VStr ts);
          (str "host", VStr hostname);
          (str "error", VMsg (exc_msg e));
          (str "source", VStr (str "aix_cpu_watch"));
          (str "severity", VStr (str "error")) ].

(** What one run of [poll_one] meets outside the process: the remote
    side; whether the task is cancelled while it awaits the worker
    thread; the clock reading taken when an event is built; the moment
    at which the task resumes (its worker thread has finished, or the
    cancellation arrives), which serves only to order the tasks of one
    iteration; and the number of paramiko calls the worker thread has
    made at the moment the task is interrupted, that is, cancelled, or
    left pending because [gather] has raised. *)
Record poll_env := mkPollEnv {
  pe_world : env;
  pe_cancelled : bool;
  pe_now : pystr;
  pe_resumes : nat;
  pe_progress : nat
}.

(** [[line for line in out.splitlines() if line.strip()]] *)
Definition nonblank_lines (out : pystr) : list pystr :=
  List.filter (fun line => negb (is_empty (strip line))) (splitlines out).

(** The code of [poll_one] from [crossed = ...] to [queue.put(event)]. *)
Definition evaluate_and_emit (cfg : config) (ts hostname : pystr)
    (cpu : Reading) (queue : list pyval) : list pyval :=
  let crossed := fge (cpu_usage cpu) (threshold cfg) in
  if negb (emit_only_above cfg) || crossed
  then queue ++ [success_event ts hostname cpu (threshold cfg) crossed]
  else queue.

(** The [try] block of [poll_one].  [cli.run] is executed by a worker
    thread while the task awaits it.  When the task is cancelled,
    [CancelledError] is raised at the [await] and the thread is not
    stopped with it: the session and the calls given are those at that
    moment, the thread having made [pe_progress] of its calls, and it
    goes on afterwards on its own. *)
Definition poll_body (cfg : config) (pe : poll_env) (hostname : pystr)
    (cli : _SSHClient) (queue : list pyval)
    : result unit * _SSHClient * list pyval * list action :=
  let '(r, cli', calls) := run (pe_world pe) cli (sample_cmd cfg) in
  if pe_cancelled pe
  then
    let done := firstn (pe_progress pe) calls in
    (Err (Exc CancelledError (Text [])),
     session_after (pe_world pe) cli done, queue, done)
  else
    match r with
    | Err e => (Err e, cli', queue, calls)
    | Ok out =>
        match last (nonblank_lines out) with
        | None =>
            (Err (Exc IndexError (Text (str "list index out of range"))),
             cli', queue, calls)
        | Some lines =>
            if is_empty lines
            then (Err (Exc ValueError (Text (str "vmstat returned no data"))),
                  cli', queue, calls)
            else
              match _compute_cpu_usage_from_vmstat lines with
              | Err e => (Err e, cli', queue, calls)
              | Ok cpu =>
                  (Ok tt, cli',
                   evaluate_and_emit cfg (pe_now pe) hostname cpu queue, calls)
              end
        end
    end.

(** [poll_one(h)], with [hostname] for [h["host"]]: the two lookups come
    before the [try], the session object is shared with [self.clients]
    and so is updated in place, and [except Exception] turns every
    exception but a [BaseException] into one error event. *)
Definition poll_one (cfg : config) (pe : poll_env) (hostname : pystr)
    (clients : gmap (list N) _SSHClient) (queue : list pyval)
    : result unit * gmap (list N) _SSHClient * list pyval * list action :=
  match clients !! hostname with
  | None => (Err (Exc KeyError (TextRepr [] hostname)), clients, queue, [])
  | Some cli =>
      let '(r, cli', queue', calls) := poll_body cfg pe hostname cli queue in
      let clients' := <[hostname := cli']> clients in
      match r with
      | Ok _ => (Ok tt, clients', queue', calls)
      | Err e =>
          if is_Exception e
          then (Ok tt, clients', queue' ++ [error_event (pe_now pe) hostname e], calls)
          else (Err e, clients', queue', calls)
      end
  end.

(** The tasks that are still pending when [gather] raises: nothing more
    of them reaches the loop; their worker threads are under way, each
    having made [pe_progress] of its calls. *)
Fixpoint pending (cfg : config) (polls : list (list N * poll_env))
    (clients : gmap (list N) _SSHClient)
    : gmap (list N) _SSHClient * list (list N * list action) :=
  match polls with
  | [] => (clients, [])
  | (hostname, pe) :: rest =>
      match clients !! hostname with
      | None => pending cfg rest clients
      | Some cli =>
          let done :=
            firstn (pe_progress pe) (run (pe_world pe) cli (sample_cmd cfg)).2 in
          let cli' := session_after (pe_world pe) cli done in
          let '(clients', calls) := pending cfg rest (<[hostname := cli']> clients) in
          (clients', (hostname, done) :: calls)
      end
  end.

(** [await asyncio.gather(...)] over the tasks [poll_one(h)].  The tasks
    run at the same time, each with its worker thread; [polls] gives
    them in the order in which they resume.  A task that returns has
    left its event, if any, on the queue.  The first task that raises
    makes [gather] raise at once, and the tasks after it are left
    pending.  The calls are given task by task: those of different
    tasks are made by different threads and are not ordered among
    themselves.  The tasks are taken to be for different hosts: two
    tasks for one host name share the session object and their threads
    race on it, which this function does not describe. *)
Fixpoint gather (cfg : config) (polls : list (list N * poll_env))
    (clients : gmap (list N) _SSHClient) (queue : list pyval)
    : result unit * gmap (list N) _SSHClient * list pyval
      * list (list N * list action) :=
  match polls with
  | [] => (Ok tt, clients, queue, [])
  | (hostname, pe) :: rest =>
      let '(r, clients1, queue1, calls1) := poll_one cfg pe hostname clients queue in
      match r with
      | Err e =>
          let '(clients2, calls2) := pending cfg rest clients1 in
          (Err e, clients2, queue1, (hostname, calls1) :: calls2)
      | Ok _ =>
          let '(r', clients2, queue2, calls2) := gather cfg rest clients1 queue1 in
          (r', clients2, queue2, (hostname, calls1) :: calls2)
      end
  end.

(** [p] put at its place among tasks already in the order in which they
    resume; of two tasks that resume at the same moment the one that
    comes first in the host list is taken first. *)
Fixpoint resume_among (p : list N * poll_env) (l : list (list N * poll_env))
    : list (list N * poll_env) :=
  match l with
  | [] => [p]
  | q :: l' =>
      if (pe_resumes q.2 <? pe_resumes p.2)%nat
      then q :: resume_among p l'
      else p :: l
  end.

(** The tasks in the order in which they resume. *)
Definition completion_order (polls : list (list N * poll_env))
    : list (list N * poll_env) :=
  foldr resume_among [] polls.

(** An [int] or a [float]. *)
Inductive pynum :=
| PInt (z : Z)
| PFloat (f : float).

(** [max(0, interval - elapsed)]: the [int] is converted for the
    subtraction, and [max] keeps its first argument [0] unless the
    second is greater. *)
Definition sleep_duration (interval : Z) (elapsed : float) : result pynum :=
  match float_of_int interval with
  | None => Err (Exc OverflowError (Text (str "int too large to convert to float")))
  | Some i =>
      let d := fsub i elapsed in
      Ok (if fgt d fzero then PFloat d else PInt 0)
  end.

(** What one iteration of the loop meets: the two readings of the event
    loop's clock, and the environment of each host's task, by position
    in the host list. *)
Record tick_env := mkTickEnv {
  te_start : float;
  te_poll : nat -> poll_env;
  te_end : float
}.

(** One iteration of [while self.running]: the result, the sessions and
    the queue afterwards, the paramiko calls made, and the argument of
    [asyncio.sleep] when the iteration reaches it.  One task is created
    per entry of the host list, and the tasks resume in the order their
    environments give. *)
Definition tick (cfg : config) (hosts : list (list N)) (te : tick_env)
    (clients : gmap (list N) _SSHClient) (queue : list pyval)
    : result unit * gmap (list N) _SSHClient * list pyval
      * list (list N * list action) * option pynum :=
  let start := te_start te in
  let '(r, clients1, queue1, calls) :=
    gather cfg (completion_order (imap (fun i h => (h, te_poll te i)) hosts))
           clients queue in
  match r with
  | Err e => (Err e, clients1, queue1, calls, None)
  | Ok _ =>
      let elapsed := fsub (te_end te) start in
      match sleep_duration (interval cfg) elapsed with
      | Err e => (Err e, clients1, queue1, calls, None)
      | Ok d => (Ok tt, clients1, queue1, calls, Some d)
      end
  end.

(** The iterations of the loop for the given environments, one after
    the other, with the sleeps requested; the loop ends at the first
    exception. *)
Fixpoint ticks (cfg : config) (hosts : list (list N)) (tes : list tick_env)
    (clients : gmap (list N) _SSHClient) (queue : list pyval)
    : result unit * gmap (list N) _SSHClient * list pyval * list pynum :=
  match tes with
  | [] => (Ok tt, clients, queue, [])
  | te :: rest =>
      match tick cfg hosts te clients queue with
      | (Ok _, clients1, queue1, _, Some d) =>
          let '(r, clients2, queue2, sleeps) := ticks cfg hosts rest clients1 queue1 in
          (r, clients2, queue2, d :: sleeps)
      | (Ok _, clients1, queue1, _, None) => (Ok tt, clients1, queue1, [])
      | (Err e, clients1, queue1, _, _) => (Err e, clients1, queue1, [])
      end
  end.

(** One entry of the [hosts] argument: [host] is required, the other
    keys are optional. *)
Record host_entry := mkHostEntry {
  he_host : pystr;
  he_username : option pystr;
  he_port : option Z;
  he_key_path : option pystr;
  he_password : option pystr;
  he_timeout : option Z
}.

(** The [_SSHClient(...)] built for an entry, with the defaults of
    [h.get]. *)
Definition new_client (h : host_entry) : _SSHClient :=
  init (he_host h)
       (default (str "root") (he_username h))
       (default 22 (he_port h))
       (he_key_path h)
       (he_password h)
       (default 10 (he_timeout h)).

(** The loop [for h in hosts: self.clients[h["host"]] = _SSHClient(...)]. *)
Definition prepare_clients (hosts : list host_entry)
    (clients : gmap (list N) _SSHClient) : gmap (list N) _SSHClient :=
  foldl (fun m h => <[he_host h := new_client h]> m) clients hosts.


End Poller.
Export Poller.

(* ===================================================================== *)
(** * Notions of the specification *)
(* ===================================================================== *)

Module Spec.

(** [x] is a zero, a finite number or an infinity of sign bit [s]. *)
Definition has_sign (s : bool) (x : float) : Prop :=
  match x with
  | S754_zero s' | S754_infinity s' | S754_finite s' _ _ => s' = s
  | S754_nan => False
  end.

(** [x >= 0] *)
Definition nonneg (x : float) : Prop := fge x fzero = true.

(** A token that parses as a non-negative decimal number: decimal
    digits, at least one, with at most one point among them. *)
Definition decimal_numeral (t : pystr) : bool :=
  let body := replace_first_dot t in
  negb (is_empty body) && forallb isdecimal_char body.

(** Every character of the string is an ASCII character. *)
Definition is_ascii (s : pystr) : Prop := Forall (fun c => (c < 128)%N) s.

(** The field layout of the two events. *)
Definition success_keys : list pystr :=
  List.map str ["timestamp"; "host"; "cpu"; "threshold"; "crossed"; "source"]%string.

Definition cpu_keys : list pystr :=
  List.map str ["percent"; "us"; "sy"; "id"; "wa"]%string.

Definition error_keys : list pystr :=
  List.map str ["timestamp"; "host"; "error"; "source"; "severity"]%string.

(** A success event: exactly the six fields, [cpu] with exactly its five,
    [cpu.percent] the sum [us + sy + wa] rounded to two decimals, the
    source tag, and neither [error] nor [severity]. *)
Definition is_success_event (ev : pyval) : Prop :=
  keys ev = success_keys /\
  (exists ts, field ev "timestamp" = Some (VStr ts)) /\
  (exists h, field ev "host" = Some (VStr h)) /\
  (exists c us sy idl wa,
     field ev "cpu" = Some c /\ keys c = cpu_keys /\
     field c "us" = Some (VFloat us) /\
     field c "sy" = Some (VFloat sy) /\
     field c "id" = Some (VFloat idl) /\
     field c "wa" = Some (VFloat wa) /\
     field c "percent" = Some (VFloat (py_round (fadd (fadd us sy) wa) 2))) /\
  (exists t, field ev "threshold" = Some (VFloat t)) /\
  (exists b, field ev "crossed" = Some (VBool b)) /\
  field ev "source" = Some (VStr (str "aix_cpu_watch")) /\
  field ev "error" = None /\
  field ev "severity" = None.

(** An error event: exactly the five fields, severity ["error"], the
    source tag, and none of [cpu], [threshold], [crossed]. *)
Definition is_error_event (ev : pyval) : Prop :=
  keys ev = error_keys /\
  (exists ts, field ev "timestamp" = Some (VStr ts)) /\
  (exists h, field ev "host" = Some (VStr h)) /\
  (exists m, field ev "error" = Some (VMsg m)) /\
  field ev "source" = Some (VStr (str "aix_cpu_watch")) /\
  field ev "severity" = Some (VStr (str "error")) /\
  field ev "cpu" = None /\
  field ev "threshold" = None /\
  field ev "crossed" = None.

(** [cpu.percent] as a consumer reads it off a success event. *)
Definition percent_of (ev : pyval) : option pyval :=
  match field ev "cpu" with
  | Some c => field c "percent"
  | None => None
  end.

(** The floats 80.0 and 79.999. *)
Definition f80 : float := S754_finite false 5629499534213120 (-46).
Definition f79_999 : float := S754_finite false 5629429165468942 (-46).

(** ** Environments and sessions used as instances *)

(** A remote side on which key files do not load, every connection
    attempt succeeds and the command writes the bytes [out] and [err]
    to its two streams. *)
Definition world_bytes (out err : bytes) : env :=
  mkEnv (fun _ => None) (fun _ => None) (fun _ => None)
        (fun _ _ _ => ExecOutput out err) (fun _ => None).

(** The same, the command printing the texts [out] and [err] in
    UTF-8. *)
Definition world_output (out err : pystr) : env :=
  world_bytes (utf8_encode out) (utf8_encode err).

(** A remote side that cannot be reached: every connection attempt
    raises [e]. *)
Definition world_unreachable (e : exn) : env :=
  mkEnv (fun _ => None) (fun _ => None) (fun _ => Some e)
        (fun _ _ _ => ExecRaises e) (fun _ => None).

Definition unreachable : exn :=
  Exc SocketError (Text (str "[Errno 113] No route to host")).

Definition example_client : _SSHClient :=
  init (str "h1") (str "root") 22 None None 10.

Definition example_clients : gmap (list N) _SSHClient :=
  {[ str "h1" := example_client ]}.

Definition example_config : config :=
  mkConfig 10 f80 false (str "vmstat 1 2 | tail -1").

Definition example_poll (out : pystr) : poll_env :=
  mkPollEnv (world_output out []) false (str "2026-01-01T00:00:00+00:00") 0 0.

(** ** The command error as the specification words it *)

(** C6 as worded: [run] raises the command error exactly when the
    command wrote something to its error stream and nothing to its
    standard output, and returns the decoded standard output in every
    other case. *)
Definition claimed_command_error_policy (w : env) (self : _SSHClient)
    (cmd : pystr) : Prop :=
  forall h t out err,
    In (AExec h cmd t) (run w self cmd).2 ->
    do_exec w h cmd t = ExecOutput out err ->
    ((run w self cmd).1.1 = Err (command_error self (decode_ignore err))
     <-> err <> [] /\ out = []) /\
    ((run w self cmd).1.1 = Ok (decode_ignore out)
     <-> ~ (err <> [] /\ out = [])).

(** Two bytes that are no UTF-8. *)
Definition undecodable : bytes := [Byte.xff; Byte.xfe].

(** A remote side whose command writes nothing to its standard output
    and the two bytes above to its error stream. *)
Definition world_undecodable_err : env := world_bytes [] undecodable.

(** A remote side whose command writes one undecodable byte to its
    standard output and a message to its error stream. *)
Definition world_undecodable_out : env :=
  world_bytes [Byte.xff] (utf8_encode (str "boom")).

(** The bytes are well-formed UTF-8: decoding them loses nothing, the
    text encodes back to them. *)
Definition well_formed (bs : bytes) : Prop :=
  utf8_encode (decode_ignore bs) = bs.

(** ** The authentication policy as the specification words it *)

(** The key [connect] settles on. *)
Definition loaded_key (w : env) (self : _SSHClient) : option pkey :=
  (load_key w self).1.

(** The key file loads and the server accepts the key. *)
Definition key_usable (w : env) (self : _SSHClient) : Prop :=
  exists k, loaded_key w self = Some k /\
            do_connect w (connect_call self (Some k)) = None.

(** "When a key path is supplied, connect attempts to load it as RSA
    and, if that fails, as ECDSA; on any failure to load or use the key
    it authenticates with the password when one was supplied (and when a
    key loads successfully the password is not used), and when neither a
    usable key nor a password is available the connect fails with an
    authentication error." *)
Definition claimed_auth_policy (w : env) (self : _SSHClient) : Prop :=
  forall p, _client self = None -> key_path self = Some p -> truthy (Some p) = true ->
  let r := (connect w self).1.1 in
  let calls := (connect w self).2 in
  (exists rest, calls = ANewClient :: ALoadRSA p :: rest /\
                (In (ALoadECDSA p) rest <-> load_rsa w p = None)) /\
  (forall pw, password self = Some pw -> ~ key_usable w self ->
     exists args, In (AConnect args) calls /\ ca_password args = Some pw) /\
  (loaded_key w self <> None ->
     forall args, In (AConnect args) calls -> ca_password args = None) /\
  (password self = None -> ~ key_usable w self ->
     exists e, r = Err e /\ exc_class e = AuthenticationException).

Definition rejected : exn :=
  Exc AuthenticationException (Text (str "Authentication failed.")).

(** A remote side where the key file loads as an RSA key, the server
    rejects that key and would accept the password. *)
Definition world_key_rejected : env :=
  mkEnv (fun p => Some (mkPkey RSAKey p)) (fun _ => None)
        (fun args => match ca_pkey args, ca_password args with
                     | None, Some _ => None
                     | _, _ => Some rejected
                     end)
        (fun _ _ _ => ExecOutput [] []) (fun _ => None).

(** A remote side where the key file does not load and the server
    accepts a key held by the SSH agent. *)
Definition world_agent : env :=
  mkEnv (fun _ => None) (fun _ => None) (fun _ => None)
        (fun _ _ _ => ExecOutput [] []) (fun _ => None).

Definition client_key_and_password : _SSHClient :=
  init (str "h1") (str "root") 22 (Some (str "/home/user/.ssh/id_rsa"))
       (Some (str "secret")) 10.

Definition client_key_only : _SSHClient :=
  init (str "h1") (str "root") 22 (Some (str "/home/user/.ssh/id_rsa")) None 10.

(** A call that loads a key file. *)
Definition is_load (a : action) : Prop :=
  match a with
  | ALoadRSA _ | ALoadECDSA _ => True
  | _ => False
  end.

(** ** Failures of a per-host task *)

(** The configuration with the policy flag set to [flag]. *)
Definition with_flag (cfg : config) (flag : bool) : config :=
  mkConfig (interval cfg) (threshold cfg) flag (sample_cmd cfg).

(** The classes of the exceptions [_SSHClient.run] raises for a
    connection failure, an authentication failure, a timeout and a
    command failure. *)
Definition run_failure_classes : list exn_class :=
  [SSHException; AuthenticationException; SocketError; SocketTimeout; RuntimeError].

(** The per-host task for session [cli] fails with [e]: [run] raises an
    exception [e] of a class deriving from [Exception] (among them
    those of [run_failure_classes]: connect, authentication, command
    failure, timeout), or the output has no non-blank line, or the
    sampler rejects its last non-blank line (parse failure). *)
Inductive tick_failure (cfg : config) (pe : poll_env) (cli : _SSHClient)
    : exn -> Prop :=
| fail_run e :
    (run (pe_world pe) cli (sample_cmd cfg)).1.1 = Err e ->
    is_Exception e = true ->
    tick_failure cfg pe cli e
| fail_no_line out :
    (run (pe_world pe) cli (sample_cmd cfg)).1.1 = Ok out ->
    last (nonblank_lines out) = None ->
    tick_failure cfg pe cli (Exc IndexError (Text (str "list index out of range")))
| fail_parse out line e :
    (run (pe_world pe) cli (sample_cmd cfg)).1.1 = Ok out ->
    last (nonblank_lines out) = Some line ->
    _compute_cpu_usage_from_vmstat line = Err e ->
    tick_failure cfg pe cli e.

(** ** Clock readings *)

(** [x] is a binary64 value in canonical form, as every Python float is. *)
Definition valid (x : float) : Prop := valid_binary prec emax x = true.

(** The float 12.0. *)
Definition f12 : float := S754_finite false 6755399441055744 (-49).

(** A tick that starts at clock reading 0.0 and whose tasks have all
    ended at 12.0, every host printing [out]. *)
Definition example_tick (out : pystr) : tick_env :=
  mkTickEnv fzero (fun _ => example_poll out) f12.

End Spec.
Export Spec.

(* ===================================================================== *)
(** * The clean-up, and notions used for the further properties *)
(* ===================================================================== *)

Module Shutdown.

(** The keys of a dict filled by successive assignments, in the order
    [values()] visits them: each key at the place of its first
    assignment. *)
Fixpoint insertion_order (seen : list (list N)) (ks : list (list N))
    : list (list N) :=
  match ks with
  | [] => []
  | k :: ks' =>
      if decide (k ∈ seen) then insertion_order seen ks'
      else k :: insertion_order (k :: seen) ks'
  end.

(** [for cli in self.clients.values(): cli.close()]: the sessions are
    closed in turn, [w k] being what the session of key [k] meets; an
    exception raised by a [close] ends the loop.  The loop is described
    for sessions that no worker thread is using in the meantime. *)
Fixpoint close_all (w : list N -> env) (order : list (list N))
    (clients : gmap (list N) _SSHClient)
    : result unit * gmap (list N) _SSHClient * list action :=
  match order with
  | [] => (Ok tt, clients, [])
  | k :: rest =>
      match clients !! k with
      | None => close_all w rest clients
      | Some cli =>
          let '(r, cli', calls) := close (w k) cli in
          let clients' := <[k := cli']> clients in
          match r with
          | Err e => (Err e, clients', calls)
          | Ok _ =>
              let '(r', clients'', calls') := close_all w rest clients' in
              (r', clients'', calls ++ calls')
          end
      end
  end.

(** A remote side whose failures are all exceptions deriving from
    [Exception], as those of paramiko and of the socket layer are. *)
Definition raises_exceptions (w : env) : Prop :=
  (forall args e, do_connect w args = Some e -> is_Exception e = true) /\
  (forall h cmd t e, do_exec w h cmd t = ExecRaises e -> is_Exception e = true).

(** A task environment in which the task is not cancelled and the remote
    side raises only such exceptions. *)
Definition ordinary (pe : poll_env) : Prop :=
  pe_cancelled pe = false /\ raises_exceptions (pe_world pe).

(** The calls of a list that are connection attempts. *)
Definition is_connect (a : action) : bool :=
  match a with
  | AConnect _ => true
  | _ => false
  end.

(** The configuration fields of a session, apart from its handle. *)
Definition settings (self : _SSHClient)
    : list N * list N * Z * option (list N) * option (list N) * Z :=
  (host self, username self, port self, key_path self, password self, timeout self).


(** The handles that the sessions of the keys [order] hold, in that
    order: those the clean-up has to close. *)
Definition held_handles (clients : gmap (list N) _SSHClient)
    (order : list (list N)) : list handle :=
  omap (fun k => clients !! k ≫= _client) order.

(** A remote side whose handles raise [e] when closed. *)
Definition world_close_raises (e : exn) : env :=
  mkEnv (fun _ => None) (fun _ => None) (fun _ => None)
        (fun _ _ _ => ExecOutput [] []) (fun _ => Some e).

End Shutdown.
Export Shutdown.

(* ===================================================================== *)
(** * Properties: floats *)
(* ===================================================================== *)

Lemma shr_1_nonneg mrs : 0 <= shr_m mrs -> 0 <= shr_m (shr_1 mrs).
Proof.
  destruct mrs as [m r s]; simpl.
  destruct m as [|p|p]; simpl; try lia; destruct p; simpl; lia.
Qed.

Lemma iter_shr_1_nonneg n mrs :
  0 <= shr_m mrs -> 0 <= shr_m (SpecFloat.iter_pos shr_1 n mrs).
Proof.
  revert mrs. induction n as [n IH|n IH|]; intros mrs H; simpl.
  - apply IH, IH, shr_1_nonneg, H.
  - apply IH, IH, H.
  - apply shr_1_nonneg, H.
Qed.

Lemma shr_fexp_nonneg m e l :
  0 <= m -> 0 <= shr_m (fst (shr_fexp prec emax m e l)).
Proof.
  intros H. unfold shr_fexp, shr.
  assert (H0 : 0 <= shr_m (shr_record_of_loc m l))
    by (destruct l as [|[ | | ]]; simpl; exact H).
  destruct (fexp prec emax (Zdigits2 m + e) - e); simpl; auto.
  apply iter_shr_1_nonneg, H0.
Qed.

Lemma round_nearest_even_nonneg m l : 0 <= m -> 0 <= round_nearest_even m l.
Proof.
  intros H. destruct l as [|[ | | ]]; simpl; try lia.
  destruct (Z.even m); lia.
Qed.

Lemma binary_round_aux_sign s m e l :
  0 <= m -> has_sign s (binary_round_aux prec emax s m e l).
Proof.
  intros H. unfold binary_round_aux.
  pose proof (shr_fexp_nonneg m e l H) as H1.
  destruct (shr_fexp prec emax m e l) as [mrs' e'] eqn:E1. simpl in H1.
  pose proof (shr_fexp_nonneg _ e' loc_Exact
               (round_nearest_even_nonneg _ (loc_of_shr_record mrs') H1)) as H2.
  destruct (shr_fexp prec emax (round_nearest_even _ _) e' loc_Exact) as [mrs'' e''].
  simpl in H2.
  destruct (shr_m mrs'') as [|p|p]; simpl; try reflexivity; try lia.
  destruct (e'' <=? emax - prec); reflexivity.
Qed.

Lemma binary_round_sign s m e : has_sign s (binary_round prec emax s m e).
Proof.
  unfold binary_round.
  destruct (shl_align m e _) as [mz ez].
  apply binary_round_aux_sign. lia.
Qed.

Lemma float_of_ratio_sign s n d : has_sign s (float_of_ratio s n d).
Proof.
  destruct n as [|p]; simpl; [reflexivity|].
  unfold SFdiv_core_binary.
  set (m' := match _ with Z0 => _ | Zpos _ => _ | Zneg _ => _ end).
  assert (Hm : 0 <= m').
  { subst m'. destruct (_ - _ - _); try lia. apply Z.shiftl_nonneg. lia. }
  pose proof (Z_div_mod m' (Zpos d) ltac:(lia)) as Hd.
  destruct (Z.div_eucl m' (Zpos d)) as [q r].
  replace (xorb s false) with s by (destruct s; reflexivity).
  apply binary_round_aux_sign.
  destruct Hd as [Hd Hr]. nia.
Qed.

Lemma has_sign_nonneg x : has_sign false x -> fge x fzero = true.
Proof.
  destruct x as [[|]|[|]| |[|] m e]; simpl; intros H; try discriminate; try tauto; reflexivity.
Qed.

Lemma fadd_sign x y :
  has_sign false x -> has_sign false y -> has_sign false (fadd x y).
Proof.
  destruct x as [[|]|[|]| |[|] mx ex]; simpl; intros Hx; try discriminate; try tauto;
  destruct y as [[|]|[|]| |[|] my ey]; simpl; intros Hy; try discriminate; try tauto;
  try reflexivity.
  unfold fadd, SFadd, cond_Zopp, binary_normalize.
  set (a := fst (shl_align mx ex _)). set (b := fst (shl_align my ey _)).
  change (Z.pos a + Z.pos b) with (Z.pos (a + b)). cbv iota.
  apply binary_round_sign.
Qed.

Lemma feq_fge x y : feq x y = true -> fge x y = true.
Proof.
  unfold feq, fge, SFeqb, SFleb.
  destruct x as [[|]|[|]| |[|] mx ex]; destruct y as [[|]|[|]| |[|] my ey];
    simpl; try discriminate; try reflexivity.
  all: destruct (ex ?= ey) eqn:E; try discriminate;
       apply Z.compare_eq in E; subst ey;
       change (Pos.compare_cont Eq mx my) with (Pos.compare mx my);
       destruct (Pos.compare mx my) eqn:E'; try discriminate;
       apply Pos.compare_eq in E'; subst my; intros _;
       rewrite Z.compare_refl;
       change (Pos.compare_cont Eq mx mx) with (Pos.compare mx mx);
       rewrite Pos.compare_refl; reflexivity.
Qed.

(* ===================================================================== *)
(** * Properties: the sampler *)
(* ===================================================================== *)

Lemma digits_value_decimal s : forall acc,
  forallb isdecimal_char s = true -> exists n, digits_value acc s = Some n.
Proof.
  induction s as [|c s IH]; intros acc H; simpl in *.
  - eauto.
  - apply andb_true_iff in H as [Hc Hs]. unfold isdecimal_char in Hc.
    destruct (decimal_value c) as [d|]; [|discriminate]. apply IH, Hs.
Qed.

Lemma digits_value_not_decimal s : forall acc,
  forallb isdecimal_char s = false -> digits_value acc s = None.
Proof.
  induction s as [|c s IH]; intros acc H; simpl in *.
  - discriminate.
  - unfold isdecimal_char in H.
    destruct (decimal_value c) as [d|]; [|reflexivity]. apply IH, H.
Qed.

Lemma float_of_token_decimal t :
  decimal_numeral t = true ->
  exists f, float_of_token t = Some f /\ has_sign false f.
Proof.
  unfold decimal_numeral, float_of_token. intros H.
  apply andb_true_iff in H as [He Hd].
  destruct (is_empty (replace_first_dot t)); [discriminate|].
  destruct (digits_value_decimal _ 0%N Hd) as [n Hn]. rewrite Hn.
  eexists; split; [reflexivity|]. apply float_of_ratio_sign.
Qed.

Lemma float_of_token_not_decimal t :
  decimal_numeral t = false -> float_of_token t = None.
Proof.
  unfold decimal_numeral, float_of_token. intros H.
  destruct (is_empty (replace_first_dot t)); [reflexivity|].
  simpl in H. rewrite (digits_value_not_decimal _ _ H). reflexivity.
Qed.

Lemma isdecimal_isdigit c : isdecimal_char c = true -> isdigit_char c = true.
Proof. unfold isdigit_char. intros ->. reflexivity. Qed.

Lemma decimal_numeral_numeric t :
  decimal_numeral t = true -> is_numeric_token t = true.
Proof.
  unfold decimal_numeral, is_numeric_token, isdigit. intros H.
  apply andb_true_iff in H as [He Hd]. rewrite He. simpl.
  rewrite forallb_forall in *. intros c Hc. apply isdecimal_isdigit, Hd, Hc.
Qed.

(** The tokens the sampler keeps are the decimal numerals of the line
    as soon as each kept token is one. *)
Lemma filter_numeric_decimal (l : list (list N)) :
  Forall (fun t => decimal_numeral t = true) (List.filter is_numeric_token l) ->
  List.filter is_numeric_token l = List.filter decimal_numeral l.
Proof.
  induction l as [|t l IH]; simpl; intros H; [reflexivity|].
  destruct (is_numeric_token t) eqn:E.
  - inversion H as [|? ? Ht Hl]; subst. rewrite Ht. f_equal. apply IH, Hl.
  - destruct (decimal_numeral t) eqn:E'.
    + apply decimal_numeral_numeric in E'. congruence.
    + apply IH, H.
Qed.

Lemma last_n_length {A} n (l : list A) :
  (n <= length l)%nat -> length (last_n n l) = n.
Proof. intros H. unfold last_n. rewrite length_skipn. lia. Qed.

Lemma last_n_Forall {A} (P : A -> Prop) n (l : list A) :
  Forall P l -> Forall P (last_n n l).
Proof.
  unfold last_n. generalize (length l - n)%nat as k.
  intros k H. revert k. induction H; intros [|k]; simpl; auto.
Qed.

Lemma map_float_decimal ts :
  Forall (fun t => decimal_numeral t = true) ts ->
  exists fs, map_float ts = Ok fs /\
             List.map float_of_token ts = List.map Some fs /\
             Forall (has_sign false) fs.
Proof.
  induction 1 as [|t ts Ht Hts (fs & E1 & E2 & E3)]; simpl.
  - exists []. auto.
  - destruct (float_of_token_decimal t Ht) as (f & Ef & Hf).
    unfold py_float. rewrite Ef, E1. exists (f :: fs). simpl.
    rewrite E2. auto.
Qed.

(** The strings the sampler hands to [float] have passed the filter. *)
Lemma converted_tokens_filtered line :
  Forall (fun t => is_numeric_token t = true) (last_n 4 (numeric_tokens line)).
Proof.
  apply last_n_Forall. unfold numeric_tokens.
  apply List.Forall_forall. intros t Ht. apply filter_In in Ht. tauto.
Qed.

(** On a line whose kept tokens are all decimal numerals the sampler
    does what the specification says of it. *)
Lemma sampler_decimal_line line :
  let toks := numeric_tokens line in
  Forall (fun t => decimal_numeral t = true) toks ->
  toks = List.filter decimal_numeral (split (strip line)) /\
  ((4 <= length toks)%nat ->
     exists us sy idl wa,
       List.map float_of_token (last_n 4 toks) = [Some us; Some sy; Some idl; Some wa] /\
       _compute_cpu_usage_from_vmstat line
         = Ok (mkReading us sy idl wa (fadd (fadd us sy) wa)) /\
       nonneg us /\ nonneg sy /\ nonneg idl /\ nonneg wa /\
       nonneg (fadd (fadd us sy) wa)) /\
  ((length toks < 4)%nat ->
     _compute_cpu_usage_from_vmstat line
       = Err (Exc ValueError (TextRepr (str "Unexpected vmstat output: ") line))).
Proof.
  intros toks Hdec. split; [|split].
  - apply filter_numeric_decimal, Hdec.
  - intros Hlen. unfold _compute_cpu_usage_from_vmstat. fold toks.
    destruct (Nat.ltb_spec (length toks) 4) as [?|_]; [lia|].
    destruct (map_float_decimal _ (last_n_Forall _ 4 _ Hdec)) as (fs & E1 & E2 & E3).
    pose proof (last_n_length 4 toks Hlen) as L.
    assert (Lfs : length fs = 4%nat).
    { rewrite <- L, <- (length_map float_of_token), E2, length_map. reflexivity. }
    destruct fs as [|us [|sy [|idl [|wa [|? ?]]]]]; try discriminate.
    rewrite E1. exists us, sy, idl, wa.
    inversion E3 as [|? ? Hus E3']; subst.
    inversion E3' as [|? ? Hsy E3'']; subst.
    inversion E3'' as [|? ? Hid E3''']; subst.
    inversion E3''' as [|? ? Hwa _]; subst.
    repeat split; try (apply has_sign_nonneg; assumption); [exact E2|].
    apply has_sign_nonneg, fadd_sign; [apply fadd_sign|]; assumption.
  - intros Hlen. unfold _compute_cpu_usage_from_vmstat. fold toks.
    destruct (Nat.ltb_spec (length toks) 4) as [_|?]; [reflexivity|lia].
Qed.

(** ** ASCII lines *)

Lemma ascii_digit_decimal c :
  (c < 128)%N -> isdigit_char c = true -> isdecimal_char c = true.
Proof.
  intros Hc. unfold isdigit_char. intros H.
  apply orb_true_iff in H as [H|H]; [exact H|].
  exfalso. unfold in_ranges in H. apply existsb_exists in H as (r & Hr & Hin).
  unfold in_range in Hin. apply andb_true_iff in Hin as [H1 H2].
  apply N.leb_le in H1. unfold digit_only_ranges in Hr. simpl in Hr.
  repeat (destruct Hr as [<-|Hr]; [simpl in H1; lia|]). exact Hr.
Qed.

Lemma lstrip_incl s : incl (lstrip s) s.
Proof.
  induction s as [|c s IH]; simpl; [apply incl_refl|].
  destruct (isspace c); [apply incl_tl, IH|apply incl_refl].
Qed.

Lemma strip_incl s : incl (strip s) s.
Proof.
  unfold strip. intros c Hc. apply in_rev in Hc.
  apply lstrip_incl in Hc. apply in_rev in Hc. apply lstrip_incl in Hc. exact Hc.
Qed.

Lemma split_from_incl s : forall cur t c,
  In t (split_from cur s) -> In c t -> In c cur \/ In c s.
Proof.
  induction s as [|a s IH]; intros cur t c Ht Hc; simpl in Ht.
  - destruct cur as [|x cur]; [destruct Ht|].
    destruct Ht as [<-|[]]. left. apply in_rev. exact Hc.
  - destruct (isspace a).
    + destruct cur as [|x cur].
      * destruct (IH _ _ _ Ht Hc) as [[]|H]. right. right. exact H.
      * destruct Ht as [<-|Ht].
        -- left. apply in_rev. exact Hc.
        -- destruct (IH _ _ _ Ht Hc) as [[]|H]. right. right. exact H.
    + destruct (IH _ _ _ Ht Hc) as [[<-|H]|H]; simpl; auto.
Qed.

Lemma replace_first_dot_incl t : incl (replace_first_dot t) t.
Proof.
  induction t as [|c t IH]; simpl; [apply incl_refl|].
  destruct (c =? dot)%N; [apply incl_tl, incl_refl|].
  intros x [<-|Hx]; simpl; auto.
Qed.

(** On an ASCII line every token the sampler keeps is a decimal numeral. *)
Lemma ascii_tokens_decimal line :
  is_ascii line ->
  Forall (fun t => decimal_numeral t = true) (numeric_tokens line).
Proof.
  intros Hl. unfold is_ascii in Hl. rewrite List.Forall_forall in Hl.
  apply List.Forall_forall. intros t Ht.
  unfold numeric_tokens in Ht. apply filter_In in Ht as [Ht Hnum].
  unfold is_numeric_token, isdigit in Hnum. unfold decimal_numeral.
  apply andb_true_iff in Hnum as [He Hd]. rewrite He. simpl.
  rewrite forallb_forall in *. intros c Hc. apply ascii_digit_decimal; [|apply Hd, Hc].
  apply Hl. apply replace_first_dot_incl in Hc.
  destruct (split_from_incl _ _ _ _ Ht Hc) as [[]|H]. apply strip_incl, H.
Qed.

(** C2 (defect of the code).  The line "1 2 ² 3 4" holds four tokens
    that parse as non-negative decimal numbers, 1 2 3 4, so the sampler
    should return them with usage 1 + 2 + 4.  The filter
    [t.replace('.', '', 1).isdigit()] also keeps the token "²" (U+00B2,
    a digit for [str.isdigit] but not for [float]), the last four kept
    tokens are 2 ² 3 4, and [float] raises [ValueError] on the second. *)
Theorem sampler_superscript_digit :
  let line := (str "1 2 " ++ [0xb2%N] ++ str " 3 4")%list in
  List.filter decimal_numeral (split (strip line))
    = [str "1"; str "2"; str "3"; str "4"] /\
  numeric_tokens line = [str "1"; str "2"; [0xb2%N]; str "3"; str "4"] /\
  _compute_cpu_usage_from_vmstat line
    = Err (Exc ValueError
             (TextRepr (str "could not convert string to float: ") [0xb2%N])).
Proof. vm_compute. repeat split. Qed.

(* ===================================================================== *)
(** * Properties: the per-host task *)
(* ===================================================================== *)

Lemma strip_nil : strip [] = [].
Proof. reflexivity. Qed.

Lemma last_nonblank_nonempty out line :
  last (nonblank_lines out) = Some line -> is_empty line = false.
Proof.
  intros H. apply last_Some_elem_of, list_elem_of_In in H.
  unfold nonblank_lines in H. apply filter_In in H as [_ H].
  destruct line; [discriminate H|reflexivity].
Qed.

(** The sampler's usage is the sum of three of the fields it returns. *)
Lemma sampler_usage line cpu :
  _compute_cpu_usage_from_vmstat line = Ok cpu ->
  cpu_usage cpu = fadd (fadd (cpu_us cpu) (cpu_sy cpu)) (cpu_wa cpu).
Proof.
  unfold _compute_cpu_usage_from_vmstat.
  destruct (_ <? _)%nat; [discriminate|].
  destruct (map_float _) as [[|us [|sy [|idl [|wa [|? ?]]]]]|e]; try discriminate.
  intros [= <-]. reflexivity.
Qed.

Lemma success_event_shape ts hostname cpu thr crossed :
  cpu_usage cpu = fadd (fadd (cpu_us cpu) (cpu_sy cpu)) (cpu_wa cpu) ->
  is_success_event (success_event ts hostname cpu thr crossed).
Proof.
  intros H. unfold is_success_event, success_event. rewrite H.
  repeat split; try reflexivity; eauto.
  eexists _, _, _, _, _. repeat split; reflexivity.
Qed.

Lemma error_event_shape ts hostname e :
  is_error_event (error_event ts hostname e).
Proof. unfold is_error_event, error_event. repeat split; eauto. Qed.

(** The success path of [poll_one]: the command returned text whose
    last non-blank line the sampler accepts. *)
Lemma poll_one_success cfg pe hostname clients cli queue out line cpu :
  clients !! hostname = Some cli ->
  pe_cancelled pe = false ->
  (run (pe_world pe) cli (sample_cmd cfg)).1.1 = Ok out ->
  last (nonblank_lines out) = Some line ->
  _compute_cpu_usage_from_vmstat line = Ok cpu ->
  poll_one cfg pe hostname clients queue
  = (Ok tt,
     <[hostname := (run (pe_world pe) cli (sample_cmd cfg)).1.2]> clients,
     evaluate_and_emit cfg (pe_now pe) hostname cpu queue,
     (run (pe_world pe) cli (sample_cmd cfg)).2).
Proof.
  intros Hc Hcan Hrun Hlast Hcpu. unfold poll_one, poll_body.
  rewrite Hc. destruct (run _ _ _) as [[r cli'] calls]. simpl in *. subst r.
  rewrite Hcan, Hlast, (last_nonblank_nonempty _ _ Hlast), Hcpu. reflexivity.
Qed.

(** C3.  On the success path, for every reading, threshold and policy
    flag: [crossed] is [usage >= threshold], a usage equal to the
    threshold counts as crossed, and the task puts one success event
    carrying that flag on the queue if [(not emit_only_above) or
    crossed], and nothing otherwise. *)
Theorem threshold_evaluation cfg pe hostname clients cli queue out line cpu :
  clients !! hostname = Some cli ->
  pe_cancelled pe = false ->
  (run (pe_world pe) cli (sample_cmd cfg)).1.1 = Ok out ->
  last (nonblank_lines out) = Some line ->
  _compute_cpu_usage_from_vmstat line = Ok cpu ->
  let crossed := fge (cpu_usage cpu) (threshold cfg) in
  let queue' := (poll_one cfg pe hostname clients queue).1.2 in
  (feq (cpu_usage cpu) (threshold cfg) = true -> crossed = true) /\
  (negb (emit_only_above cfg) || crossed = true ->
     exists ev, queue' = queue ++ [ev] /\ is_success_event ev /\
                field ev "crossed" = Some (VBool crossed)) /\
  (negb (emit_only_above cfg) || crossed = false -> queue' = queue).
Proof.
  intros Hc Hcan Hrun Hlast Hcpu crossed queue'.
  subst queue'. rewrite (poll_one_success _ _ _ _ _ _ _ _ _ Hc Hcan Hrun Hlast Hcpu).
  simpl. unfold evaluate_and_emit. fold crossed.
  split; [apply feq_fge|]. split; intros ->; [|reflexivity].
  eexists; split; [reflexivity|]. split; [|reflexivity].
  apply success_event_shape, (sampler_usage _ _ Hcpu).
Qed.

Lemma threshold_evaluation_witness :
  let cfg := example_config in
  let out := str "   12.0   3.0   80.0   5.0" in
  let pe := example_poll out in
  let cpu := mkReading (S754_finite false 6755399441055744 (-49))
                       (S754_finite false 6755399441055744 (-51))
                       f80
                       (S754_finite false 5629499534213120 (-50))
                       (S754_finite false 5629499534213120 (-48)) in
  let crossed := fge (cpu_usage cpu) (threshold cfg) in
  let queue' := (poll_one cfg pe (str "h1") example_clients []).1.2 in
  (example_clients !! str "h1" = Some example_client /\
   pe_cancelled pe = false /\
   (run (pe_world pe) example_client (sample_cmd cfg)).1.1 = Ok out /\
   last (nonblank_lines out) = Some out /\
   _compute_cpu_usage_from_vmstat out = Ok cpu) /\
  (feq (cpu_usage cpu) (threshold cfg) = true -> crossed = true) /\
  (negb (emit_only_above cfg) || crossed = true ->
     exists ev, queue' = [] ++ [ev] /\ is_success_event ev /\
                field ev "crossed" = Some (VBool crossed)) /\
  (negb (emit_only_above cfg) || crossed = false -> queue' = []).
Proof.
  intros cfg out pe cpu crossed queue'.
  split; [repeat split; vm_compute; reflexivity|].
  apply (threshold_evaluation cfg pe (str "h1") example_clients example_client
           [] out out cpu); vm_compute; reflexivity.
Defined.



(** C10.  [crossed] is computed from the usage before rounding and
    [cpu.percent] is the usage after rounding.  A usage of 79.999
    against a threshold of 80 gives an event with percent 80.0, which is
    not below the threshold, and crossed false; a usage of 80 gives the
    same percent and threshold with crossed true.  So no function of the
    emitted percent and threshold yields the emitted crossed flag. *)
Theorem crossed_not_function_of_percent :
  (exists ev1 ev2,
     (poll_one example_config (example_poll (str "79.999 0 0 0"))
               (str "h1") example_clients []).1.2 = [ev1] /\
     (poll_one example_config (example_poll (str "80 0 0 0"))
               (str "h1") example_clients []).1.2 = [ev2] /\
     percent_of ev1 = Some (VFloat f80) /\
     field ev1 "threshold" = Some (VFloat f80) /\
     field ev1 "crossed" = Some (VBool false) /\
     percent_of ev2 = Some (VFloat f80) /\
     field ev2 "threshold" = Some (VFloat f80) /\
     field ev2 "crossed" = Some (VBool true)) /\
  fge f80 f80 = true /\
  fge f79_999 f80 = false /\
  py_round f79_999 2 = f80 /\
  ~ (exists f : spec_float -> spec_float -> bool,
       forall cfg pe hostname clients ev p t b,
         In ev (poll_one cfg pe hostname clients []).1.2 ->
         percent_of ev = Some (VFloat p) ->
         field ev "threshold" = Some (VFloat t) ->
         field ev "crossed" = Some (VBool b) ->
         b = f p t).
Proof.
  pose (ev1 := success_event (str "2026-01-01T00:00:00+00:00") (str "h1")
                 (mkReading f79_999 fzero fzero fzero f79_999) f80 false).
  pose (ev2 := success_event (str "2026-01-01T00:00:00+00:00") (str "h1")
                 (mkReading f80 fzero fzero fzero f80) f80 true).
  assert (E1 : (poll_one example_config (example_poll (str "79.999 0 0 0"))
                  (str "h1") example_clients []).1.2 = [ev1])
    by (vm_compute; reflexivity).
  assert (E2 : (poll_one example_config (example_poll (str "80 0 0 0"))
                  (str "h1") example_clients []).1.2 = [ev2])
    by (vm_compute; reflexivity).
  split; [|split; [|split; [|split]]].
  - exists ev1, ev2. split; [exact E1|]. split; [exact E2|].
    repeat split; vm_compute; reflexivity.
  - vm_compute; reflexivity.
  - vm_compute; reflexivity.
  - vm_compute; reflexivity.
  - intros [f Hf].
    pose proof (Hf example_config (example_poll (str "79.999 0 0 0"))
                  (str "h1") example_clients ev1 f80 f80 false) as H1.
    pose proof (Hf example_config (example_poll (str "80 0 0 0"))
                  (str "h1") example_clients ev2 f80 f80 true) as H2.
    rewrite E1 in H1. rewrite E2 in H2.
    specialize (H1 (or_introl eq_refl)). specialize (H2 (or_introl eq_refl)).
    assert (false = f f80 f80) by (apply H1; vm_compute; reflexivity).
    assert (true = f f80 f80) by (apply H2; vm_compute; reflexivity).
    congruence.
Qed.

(* ===================================================================== *)
(** * Properties: the session *)
(* ===================================================================== *)

Lemma load_key_calls w self : Forall is_load (load_key w self).2.
Proof.
  unfold load_key. destruct (key_path self) as [p|]; [|constructor].
  destruct (truthy (Some p)); [|constructor].
  destruct (load_rsa w p); [repeat constructor|].
  destruct (load_ecdsa w p); repeat constructor.
Qed.

(** [connect] on a session without handle: one handle is created, the
    key is settled, and one connection attempt is made, whose outcome
    is the outcome of [connect]. *)
Lemma connect_fresh w self :
  _client self = None ->
  connect w self =
    let args := connect_call self (loaded_key w self) in
    let calls := ANewClient :: (load_key w self).2 ++ [AConnect args] in
    match do_connect w args with
    | None => (Ok tt, set_client self (Some (mkHandle true)), calls)
    | Some e => (Err e, set_client self (Some (mkHandle false)), calls)
    end.
Proof.
  intros H. unfold connect, loaded_key. rewrite H.
  change (load_key w (set_client self (Some (mkHandle false)))) with (load_key w self).
  destruct (load_key w self) as [k loads]. simpl.
  change (connect_call (set_client self (Some (mkHandle false))) k)
    with (connect_call self k).
  destruct (do_connect w (connect_call self k)); reflexivity.
Qed.

Lemma connect_connected w self h :
  _client self = Some h -> connect w self = (Ok tt, self, []).
Proof. intros H. unfold connect. rewrite H. reflexivity. Qed.

(** [run] on a session that holds a handle: no connection attempt. *)
Lemma run_with_handle w self h cmd :
  _client self = Some h ->
  run w self cmd =
    match do_exec w h cmd (timeout self) with
    | ExecRaises e => (Err e, self, [AExec h cmd (timeout self)])
    | ExecOutput out err =>
        (if negb (is_empty (decode_ignore err)) && is_empty (decode_ignore out)
         then Err (command_error self (decode_ignore err))
         else Ok (decode_ignore out),
         self, [AExec h cmd (timeout self)])
    end.
Proof.
  intros H. unfold run. rewrite H. simpl. rewrite H. simpl.
  destruct (do_exec _ _ _ _) as [e|out err]; [reflexivity|]. cbv zeta.
  destruct (negb (is_empty (decode_ignore err)) && is_empty (decode_ignore out));
    reflexivity.
Qed.

(** [run] on a session without handle. *)
Lemma run_fresh w self cmd :
  _client self = None ->
  run w self cmd =
    let args := connect_call self (loaded_key w self) in
    let calls := ANewClient :: (load_key w self).2 ++ [AConnect args] in
    match do_connect w args with
    | Some e => (Err e, set_client self (Some (mkHandle false)), calls)
    | None =>
        let self1 := set_client self (Some (mkHandle true)) in
        let calls' := calls ++ [AExec (mkHandle true) cmd (timeout self)] in
        match do_exec w (mkHandle true) cmd (timeout self) with
        | ExecRaises e => (Err e, self1, calls')
        | ExecOutput out err =>
            (if negb (is_empty (decode_ignore err)) && is_empty (decode_ignore out)
             then Err (command_error self (decode_ignore err))
             else Ok (decode_ignore out), self1, calls')
        end
    end.
Proof.
  intros H. unfold run. rewrite H, (connect_fresh _ _ H). simpl.
  destruct (do_connect w _); [reflexivity|]. simpl.
  destruct (do_exec _ _ _ _) as [e|out err]; [reflexivity|]. cbv zeta.
  destruct (negb (is_empty (decode_ignore err)) && is_empty (decode_ignore out));
    reflexivity.
Qed.

Lemma session_after_loads w self loads :
  Forall is_load loads -> session_after w self loads = self.
Proof.
  unfold session_after. revert self.
  induction loads as [|a loads IH]; intros self H; [reflexivity|].
  inversion H as [|? ? Ha Hl]; subst. simpl.
  destruct a; try (destruct Ha); apply IH, Hl.
Qed.

(** A worker thread that has made all the calls of [run] leaves the
    session as [run] does. *)
Lemma session_after_run w self cmd :
  session_after w self (run w self cmd).2 = (run w self cmd).1.2.
Proof.
  destruct (_client self) as [h|] eqn:Hc.
  - rewrite (run_with_handle _ _ _ _ Hc).
    destruct (do_exec w h cmd (timeout self)); reflexivity.
  - rewrite (run_fresh _ _ _ Hc). cbv zeta.
    assert (E : forall tl,
              session_after w self
                (ANewClient :: (load_key w self).2 ++
                   AConnect (connect_call self (loaded_key w self)) :: tl)
              = session_after w
                  (match do_connect w (connect_call self (loaded_key w self)) with
                   | None => set_client self (Some (mkHandle true))
                   | Some _ => set_client self (Some (mkHandle false))
                   end) tl).
    { intros tl. unfold session_after. simpl. rewrite fold_left_app.
      fold (session_after w (set_client self (Some (mkHandle false)))
              (load_key w self).2).
      rewrite (session_after_loads _ _ _ (load_key_calls w self)). simpl.
      destruct (do_connect w _); reflexivity. }
    destruct (do_connect w (connect_call self (loaded_key w self))) eqn:Ed.
    + cbn [fst snd]. rewrite E. reflexivity.
    + assert (Ec : forall (r : result pystr) (s' : _SSHClient) (t : list action),
                (r, s', (ANewClient :: (load_key w self).2 ++
                           [AConnect (connect_call self (loaded_key w self))]) ++ t).2
                = ANewClient :: (load_key w self).2 ++
                    AConnect (connect_call self (loaded_key w self)) :: t
                :> list action).
      { intros r s' t. cbn [snd]. rewrite <- app_comm_cons, <- app_assoc.
        reflexivity. }
      destruct (do_exec w (mkHandle true) cmd (timeout self));
        (etransitivity; [apply (f_equal (session_after w self)), Ec|]);
        rewrite E; reflexivity.
Qed.

(** What [run] does with the bytes read from the two streams. *)
Lemma run_outcome w self cmd h t out err :
  In (AExec h cmd t) (run w self cmd).2 ->
  do_exec w h cmd t = ExecOutput out err ->
  (run w self cmd).1.1
  = (if negb (is_empty (decode_ignore err)) && is_empty (decode_ignore out)
     then Err (command_error self (decode_ignore err))
     else Ok (decode_ignore out)).
Proof.
  intros Hin Hexec.
  destruct (_client self) as [h0|] eqn:Hc.
  - rewrite (run_with_handle _ _ _ _ Hc) in *.
    assert (h = h0 /\ t = timeout self) as [-> ->].
    { destruct (do_exec w h0 cmd (timeout self)); simpl in Hin;
        destruct Hin as [[= <- <-]|[]]; auto. }
    rewrite Hexec. reflexivity.
  - rewrite (run_fresh _ _ _ Hc) in *. cbv zeta in *.
    pose proof (load_key_calls w self) as Hl.
    destruct (do_connect w _).
    + exfalso. simpl in Hin. destruct Hin as [Hin|Hin]; [discriminate|].
      apply in_app_or in Hin as [Hin|[Hin|[]]]; [|discriminate].
      rewrite List.Forall_forall in Hl. apply (Hl _ Hin).
    + assert (h = mkHandle true /\ t = timeout self) as [-> ->].
      { assert (Hin' : In (AExec h cmd t)
                   ((ANewClient :: (load_key w self).2 ++
                       [AConnect (connect_call self (loaded_key w self))]) ++
                    [AExec (mkHandle true) cmd (timeout self)])).
        { destruct (do_exec w (mkHandle true) cmd (timeout self)); exact Hin. }
        apply in_app_or in Hin' as [Hin'|[[= <- <-]|[]]]; [|auto].
        exfalso. simpl in Hin'. destruct Hin' as [Hin'|Hin']; [discriminate|].
        apply in_app_or in Hin' as [Hin'|[Hin'|[]]]; [|discriminate].
        rewrite List.Forall_forall in Hl. apply (Hl _ Hin'). }
      rewrite Hexec. reflexivity.
Qed.

(** Well-formed bytes decode to the empty text only when there are
    none. *)
Lemma well_formed_empty bs :
  well_formed bs -> (decode_ignore bs = [] <-> bs = []).
Proof.
  unfold well_formed. intros H. split.
  - intros E. rewrite E in H. symmetry. exact H.
  - intros ->. reflexivity.
Qed.

(** C6, the claim as stated, fails on the code in both directions.  A
    command that writes nothing to its standard output and two
    undecodable bytes to its error stream has produced error output and
    no output, yet [run] returns the empty text; a command that writes
    one undecodable byte to its standard output and a message to its
    error stream has produced output, yet [run] raises the command
    error. *)
Lemma claimed_command_error_policy_fails :
  ~ claimed_command_error_policy world_undecodable_err example_client
      (str "vmstat 1 2 | tail -1") /\
  ~ claimed_command_error_policy world_undecodable_out example_client
      (str "vmstat 1 2 | tail -1").
Proof.
  split; intros H.
  - destruct (H (mkHandle true) 10 [] undecodable) as [[_ H1] _].
    + vm_compute. auto.
    + reflexivity.
    + assert (Hne : undecodable <> [] /\ @nil Byte.byte = []) by (split; [discriminate|reflexivity]).
      specialize (H1 Hne). vm_compute in H1. discriminate.
  - destruct (H (mkHandle true) 10 [Byte.xff] (utf8_encode (str "boom")))
      as [[H1 _] _].
    + vm_compute. auto.
    + reflexivity.
    + destruct H1 as [_ Hout]; [vm_compute; reflexivity|discriminate].
Qed.

(** C6 as amended.  When the remote command was executed, [run] decodes
    the bytes of its two streams as UTF-8, dropping what cannot be
    decoded; it raises the command error if the decoded error text is
    not empty and the decoded output is empty, and returns the decoded
    output unchanged in every other case, also when both are non-empty.
    When both streams are well-formed UTF-8 this is the condition of
    the claim: something on the error stream and nothing on the
    standard output. *)
Theorem run_command_error w self cmd h t out_bytes err_bytes :
  In (AExec h cmd t) (run w self cmd).2 ->
  do_exec w h cmd t = ExecOutput out_bytes err_bytes ->
  let out := decode_ignore out_bytes in
  let err := decode_ignore err_bytes in
  (run w self cmd).1.1
    = (if negb (is_empty err) && is_empty out
       then Err (command_error self err) else Ok out) /\
  ((run w self cmd).1.1 = Err (command_error self err) <-> err <> [] /\ out = []) /\
  ((run w self cmd).1.1 = Ok out <-> ~ (err <> [] /\ out = [])) /\
  (well_formed out_bytes -> well_formed err_bytes ->
   ((run w self cmd).1.1 = Err (command_error self err)
    <-> err_bytes <> [] /\ out_bytes = []) /\
   ((run w self cmd).1.1 = Ok out <-> ~ (err_bytes <> [] /\ out_bytes = []))).
Proof.
  intros Hin Hexec out err.
  pose proof (run_outcome w self cmd h t out_bytes err_bytes Hin Hexec) as E.
  fold out err in E.
  assert (H1 : (run w self cmd).1.1 = Err (command_error self err)
               <-> err <> [] /\ out = []).
  { rewrite E. destruct err as [|c err']; destruct out as [|c' out']; simpl;
      split; intros; try discriminate; try reflexivity; intuition congruence. }
  assert (H2 : (run w self cmd).1.1 = Ok out <-> ~ (err <> [] /\ out = [])).
  { rewrite E. destruct err as [|c err']; destruct out as [|c' out']; simpl;
      split; intros; try discriminate; try reflexivity; intuition congruence. }
  split; [exact E|]. split; [exact H1|]. split; [exact H2|].
  intros Wo We.
  pose proof (well_formed_empty _ Wo) as Eo. pose proof (well_formed_empty _ We) as Ee.
  fold out in Eo. fold err in Ee.
  rewrite H1, H2, Eo, Ee. split; reflexivity.
Qed.

Lemma run_command_error_witness :
  let w := world_output [] (str "ksh: vmstat: not found") in
  let self := example_client in
  let cmd := str "vmstat 1 2 | tail -1" in
  let h := mkHandle true in
  let out_bytes : bytes := [] in
  let err_bytes := utf8_encode (str "ksh: vmstat: not found") in
  (In (AExec h cmd 10) (run w self cmd).2 /\
   do_exec w h cmd 10 = ExecOutput out_bytes err_bytes /\
   well_formed out_bytes /\ well_formed err_bytes) /\
  (run w self cmd).1.1
  = Err (command_error self (str "ksh: vmstat: not found")) /\
  err_bytes <> [] /\ out_bytes = [].
Proof.
  intros w self cmd h out_bytes err_bytes.
  assert (H1 : In (AExec h cmd 10) (run w self cmd).2)
    by (vm_compute; auto).
  assert (H2 : do_exec w h cmd 10 = ExecOutput out_bytes err_bytes) by reflexivity.
  assert (H3 : well_formed out_bytes) by reflexivity.
  assert (H4 : well_formed err_bytes) by (vm_compute; reflexivity).
  destruct (run_command_error w self cmd h 10 out_bytes err_bytes H1 H2)
    as (_ & _ & _ & F).
  destruct (F H3 H4) as [[_ Fe] _].
  assert (H5 : err_bytes <> [] /\ out_bytes = [])
    by (split; [discriminate|reflexivity]).
  exact (conj (conj H1 (conj H2 (conj H3 H4))) (conj (Fe H5) H5)).
Defined.

(** C9.  [close] on a session that never connected raises nothing,
    calls nothing and leaves the session as it was; after any [close],
    whether or not the handle's own [close] raised, the session holds no
    handle, and a second [close] raises nothing, calls nothing and
    leaves the session in that same state. *)
Theorem close_idempotent :
  (forall w h u p kp pw t,
     close w (init h u p kp pw t) = (Ok tt, init h u p kp pw t, [])) /\
  (forall w1 w2 self,
     let closed := (close w1 self).1.2 in
     _client closed = None /\
     close w2 closed = (Ok tt, closed, [])).
Proof.
  split.
  - intros. reflexivity.
  - intros w1 w2 self. unfold close.
    destruct (_client self) as [h|]; simpl;
      [destruct (do_close w1 h); simpl|]; split; reflexivity.
Qed.

(** After a connection attempt that failed, the session holds the handle
    that never connected, and [run] on it makes no connection attempt. *)
Lemma run_after_failed_connect w1 self cmd e :
  _client self = None ->
  (forall args, do_connect w1 args = Some e) ->
  let failed := (run w1 self cmd).1.2 in
  (run w1 self cmd).1.1 = Err e /\
  _client failed = Some (mkHandle false) /\
  forall w2 cmd2,
    (run w2 failed cmd2).2 = [AExec (mkHandle false) cmd2 (timeout self)] /\
    (run w2 failed cmd2).1.2 = failed.
Proof.
  intros Hc Hfail failed. subst failed.
  rewrite (run_fresh _ _ _ Hc). cbv zeta. rewrite Hfail. simpl.
  split; [reflexivity|]. split; [reflexivity|].
  intros w2 cmd2.
  rewrite (run_with_handle w2 (set_client self (Some (mkHandle false)))
             (mkHandle false) cmd2 eq_refl). simpl.
  destruct (do_exec w2 _ _ _); simpl; split; reflexivity.
Qed.

(** C5 (defect of the code).  The host of [example_client] cannot be
    reached on the first tick: [run] raises, and leaves in
    [self._client] the handle created before the connection attempt.
    On the next tick, whatever the remote side does then, [run] finds
    [self._client] set, calls [exec_command] on the handle that never
    connected, and makes no connection attempt. *)
Theorem failed_connect_not_retried :
  let cmd := str "vmstat 1 2 | tail -1" in
  let first := run (world_unreachable unreachable) example_client cmd in
  let failed := first.1.2 in
  first.1.1 = Err unreachable /\
  (exists args, In (AConnect args) first.2) /\
  _client failed = Some (mkHandle false) /\
  forall w2,
    (run w2 failed cmd).2 = [AExec (mkHandle false) cmd 10] /\
    (forall args, ~ In (AConnect args) (run w2 failed cmd).2) /\
    connect w2 failed = (Ok tt, failed, []).
Proof.
  intros cmd first failed.
  destruct (run_after_failed_connect (world_unreachable unreachable)
              example_client cmd unreachable eq_refl (fun _ => eq_refl))
    as (H1 & H2 & H3).
  split; [exact H1|]. split; [eexists; vm_compute; right; left; reflexivity|].
  split; [exact H2|]. intros w2.
  destruct (H3 w2 cmd) as [H4 H5]. fold first failed in H4, H5.
  split; [exact H4|]. split.
  - intros args Hin. rewrite H4 in Hin. destruct Hin as [Hin|[]]. discriminate.
  - apply (connect_connected w2 failed (mkHandle false) H2).
Qed.

(** C7, the claim as stated, fails on the code in two places.  With a
    key file that loads, a server that rejects the key and a password
    supplied, the only connection attempt carries no password; with a
    key file that does not load and no password, the attempt is made
    with agent keys allowed and can succeed. *)
Lemma claimed_auth_policy_fails :
  ~ claimed_auth_policy world_key_rejected client_key_and_password /\
  ~ claimed_auth_policy world_agent client_key_only.
Proof.
  split; intros H.
  - destruct (H (str "/home/user/.ssh/id_rsa") eq_refl eq_refl eq_refl)
      as (_ & H2 & _).
    destruct (H2 (str "secret") eq_refl) as (args & Hin & Hpw).
    + intros (k & Hk & Hconn). vm_compute in Hk. injection Hk as <-.
      vm_compute in Hconn. discriminate.
    + vm_compute in Hin.
      destruct Hin as [Hin|[Hin|[Hin|[]]]]; try discriminate.
      injection Hin as <-. discriminate.
  - destruct (H (str "/home/user/.ssh/id_rsa") eq_refl eq_refl eq_refl)
      as (_ & _ & _ & H4).
    destruct (H4 eq_refl) as (e & He & _).
    + intros (k & Hk & _). vm_compute in Hk. discriminate.
    + vm_compute in He. discriminate.
Qed.

(** C7 as amended.  On a session without handle [connect] loads the
    key, when a non-empty key path is supplied, as RSA and, only if that
    fails, as ECDSA.  It then makes exactly one connection attempt, with
    agent keys allowed: with the key and without password if a key
    loaded, with the configured password (if any) and without key if
    none loaded.  It raises exactly when that attempt raises, with the
    same exception. *)
Theorem connect_auth_policy w self :
  _client self = None ->
  let k := loaded_key w self in
  let args := connect_call self k in
  let calls := (connect w self).2 in
  (forall p, key_path self = Some p -> truthy (Some p) = true ->
     k = match load_rsa w p with Some k1 => Some k1 | None => load_ecdsa w p end /\
     exists rest, calls = ANewClient :: ALoadRSA p :: rest /\
                  (In (ALoadECDSA p) rest <-> load_rsa w p = None)) /\
  (truthy (key_path self) = false ->
     k = None /\ calls = [ANewClient; AConnect args]) /\
  (exists loads, Forall is_load loads /\
                 calls = ANewClient :: loads ++ [AConnect args]) /\
  (forall k1, k = Some k1 -> ca_pkey args = Some k1 /\ ca_password args = None) /\
  (k = None -> ca_pkey args = None /\ ca_password args = password self) /\
  ca_allow_agent args = true /\
  ca_look_for_keys args = false /\
  (connect w self).1.1
    = match do_connect w args with None => Ok tt | Some e => Err e end.
Proof.
  intros Hc k args calls. subst calls.
  rewrite (connect_fresh _ _ Hc). cbv zeta. fold k. fold args.
  assert (Hcalls : (match do_connect w args with
                    | None => (Ok tt, set_client self (Some (mkHandle true)),
                               ANewClient :: (load_key w self).2 ++ [AConnect args])
                    | Some e => (Err e, set_client self (Some (mkHandle false)),
                                 ANewClient :: (load_key w self).2 ++ [AConnect args])
                    end).2 = ANewClient :: (load_key w self).2 ++ [AConnect args])
    by (destruct (do_connect w args); reflexivity).
  rewrite Hcalls.
  split; [|split; [|split; [|split; [|split; [|split; [|split]]]]]].
  - intros p Hp Ht. subst k. unfold loaded_key, load_key. rewrite Hp, Ht.
    destruct (load_rsa w p) as [k1|] eqn:E1; simpl.
    + split; [reflexivity|]. eexists; split; [reflexivity|].
      split; [intros [H|[]]; discriminate|discriminate].
    + destruct (load_ecdsa w p); simpl; (split; [reflexivity|]);
        (eexists; split; [reflexivity|]); split; auto; left; reflexivity.
  - intros Ht. subst k. unfold loaded_key, load_key in *.
    destruct (key_path self) as [p|]; [|split; reflexivity].
    rewrite Ht. split; reflexivity.
  - exists (load_key w self).2. split; [apply load_key_calls|reflexivity].
  - intros k1 Hk. subst args. rewrite Hk. split; reflexivity.
  - intros Hk. subst args. rewrite Hk. split; reflexivity.
  - reflexivity.
  - reflexivity.
  - destruct (do_connect w args); reflexivity.
Qed.

Lemma connect_auth_policy_witness :
  let w := world_key_rejected in
  let self := client_key_and_password in
  let k := loaded_key w self in
  let args := connect_call self k in
  let calls := (connect w self).2 in
  _client self = None /\
  (forall p, key_path self = Some p -> truthy (Some p) = true ->
     k = match load_rsa w p with Some k1 => Some k1 | None => load_ecdsa w p end /\
     exists rest, calls = ANewClient :: ALoadRSA p :: rest /\
                  (In (ALoadECDSA p) rest <-> load_rsa w p = None)) /\
  (truthy (key_path self) = false ->
     k = None /\ calls = [ANewClient; AConnect args]) /\
  (exists loads, Forall is_load loads /\
                 calls = ANewClient :: loads ++ [AConnect args]) /\
  (forall k1, k = Some k1 -> ca_pkey args = Some k1 /\ ca_password args = None) /\
  (k = None -> ca_pkey args = None /\ ca_password args = password self) /\
  ca_allow_agent args = true /\
  ca_look_for_keys args = false /\
  (connect w self).1.1
    = match do_connect w args with None => Ok tt | Some e => Err e end.
Proof.
  intros w self k args calls.
  split; [reflexivity|].
  exact (connect_auth_policy w self eq_refl).
Defined.

(* ===================================================================== *)
(** * Properties: failures of the per-host task *)
(* ===================================================================== *)

Lemma map_float_error ts e : map_float ts = Err e -> exc_class e = ValueError.
Proof.
  induction ts as [|t ts IH]; simpl; [discriminate|].
  unfold py_float. destruct (float_of_token t).
  - destruct (map_float ts); [discriminate|]. intros [= <-]. apply IH. reflexivity.
  - intros [= <-]. reflexivity.
Qed.

(** The sampler raises nothing but [ValueError]. *)
Lemma sampler_error line e :
  _compute_cpu_usage_from_vmstat line = Err e -> exc_class e = ValueError.
Proof.
  unfold _compute_cpu_usage_from_vmstat.
  destruct (_ <? _)%nat; [intros [= <-]; reflexivity|].
  destruct (map_float _) as [[|us [|sy [|idl [|wa [|? ?]]]]]|e'] eqn:E;
    try (intros [= <-]; reflexivity); try discriminate.
  intros [= <-]. apply (map_float_error _ _ E).
Qed.

(** The exceptions of a connection failure, an authentication failure,
    a timeout and a command failure derive from [Exception]. *)
Lemma run_failure_classes_caught e :
  In (exc_class e) run_failure_classes -> is_Exception e = true.
Proof.
  unfold is_Exception. simpl.
  intros [<-|[<-|[<-|[<-|[<-|[]]]]]]; reflexivity.
Qed.

(** Every failure of the task is one [except Exception] catches. *)
Lemma tick_failure_caught cfg pe cli e :
  tick_failure cfg pe cli e -> is_Exception e = true.
Proof.
  intros [e' _ Hex| |out line e' _ _ Hs].
  - exact Hex.
  - reflexivity.
  - unfold is_Exception. rewrite (sampler_error _ _ Hs). reflexivity.
Qed.

(** A failing task leaves the queue to the handler. *)
Lemma poll_body_failure cfg pe hostname cli queue e :
  pe_cancelled pe = false ->
  tick_failure cfg pe cli e ->
  poll_body cfg pe hostname cli queue
  = (Err e, (run (pe_world pe) cli (sample_cmd cfg)).1.2, queue,
     (run (pe_world pe) cli (sample_cmd cfg)).2).
Proof.
  intros Hcan Hf. unfold poll_body.
  destruct Hf as [e' Hr _|out Hr Hl|out line e' Hr Hl Hs]; revert Hr;
    destruct (run _ _ _) as [[r cli'] calls]; simpl; intros ->; rewrite Hcan.
  - reflexivity.
  - rewrite Hl. reflexivity.
  - rewrite Hl, (last_nonblank_nonempty _ _ Hl), Hs. reflexivity.
Qed.

(** After the set-up every configured host has a session. *)
Lemma prepare_clients_lookup hosts : forall clients h,
  In h hosts -> is_Some (prepare_clients hosts clients !! he_host h).
Proof.
  assert (Hkeep : forall hs (m : gmap (list N) _SSHClient) k,
            is_Some (m !! k) -> is_Some (prepare_clients hs m !! k)).
  { induction hs as [|h' hs IH]; intros m k Hk; simpl; [exact Hk|].
    apply IH. destruct (decide (he_host h' = k)) as [->|Hne].
    - rewrite lookup_insert_eq. eauto.
    - rewrite lookup_insert_ne by exact Hne. exact Hk. }
  induction hosts as [|h' hosts IH]; intros clients h Hin; [destruct Hin|].
  destruct Hin as [->|Hin]; simpl.
  - apply Hkeep. rewrite lookup_insert_eq. eauto.
  - apply IH, Hin.
Qed.

(** The [try] block only appends to the queue, and what it appends
    does not depend on what the queue holds. *)
Lemma poll_body_queue cfg pe hostname cli queue :
  poll_body cfg pe hostname cli queue
  = ((poll_body cfg pe hostname cli []).1.1.1,
     (poll_body cfg pe hostname cli []).1.1.2,
     queue ++ (poll_body cfg pe hostname cli []).1.2,
     (poll_body cfg pe hostname cli []).2).
Proof.
  unfold poll_body. destruct (run _ _ _) as [[r cli'] calls].
  destruct (pe_cancelled pe); [simpl; rewrite app_nil_r; reflexivity|].
  destruct r as [out|e]; [|simpl; rewrite app_nil_r; reflexivity].
  destruct (last (nonblank_lines out)) as [line|];
    [|simpl; rewrite app_nil_r; reflexivity].
  destruct (is_empty line); [simpl; rewrite app_nil_r; reflexivity|].
  destruct (_compute_cpu_usage_from_vmstat line) as [cpu|e];
    [|simpl; rewrite app_nil_r; reflexivity].
  simpl. unfold evaluate_and_emit.
  destruct (negb (emit_only_above cfg) || fge (cpu_usage cpu) (threshold cfg));
    simpl; [reflexivity|rewrite app_nil_r; reflexivity].
Qed.

(** A task changes no session but that of its own host. *)
Lemma poll_one_other cfg pe hostname clients queue other :
  other <> hostname ->
  (poll_one cfg pe hostname clients queue).1.1.2 !! other = clients !! other.
Proof.
  intros Hne. unfold poll_one.
  destruct (clients !! hostname) as [cli|]; [|reflexivity].
  destruct (poll_body _ _ _ _ _) as [[[r cli'] queue'] calls].
  destruct r as [[]|e]; [|destruct (is_Exception e)]; simpl;
    apply lookup_insert_ne; congruence.
Qed.

(** A task reads no session but that of its own host, and what it does
    does not depend on what the queue holds. *)
Lemma poll_one_independent cfg pe hostname clients1 clients2 queue1 queue2 :
  clients1 !! hostname = clients2 !! hostname ->
  (poll_one cfg pe hostname clients1 queue1).1.1.1
  = (poll_one cfg pe hostname clients2 queue2).1.1.1 /\
  (poll_one cfg pe hostname clients1 queue1).1.1.2 !! hostname
  = (poll_one cfg pe hostname clients2 queue2).1.1.2 !! hostname /\
  (poll_one cfg pe hostname clients1 queue1).2
  = (poll_one cfg pe hostname clients2 queue2).2 /\
  exists new,
    (poll_one cfg pe hostname clients1 queue1).1.2 = queue1 ++ new /\
    (poll_one cfg pe hostname clients2 queue2).1.2 = queue2 ++ new.
Proof.
  intros H. unfold poll_one. rewrite <- H.
  destruct (clients1 !! hostname) as [cli|] eqn:E.
  - rewrite (poll_body_queue cfg pe hostname cli queue1),
            (poll_body_queue cfg pe hostname cli queue2).
    destruct (poll_body cfg pe hostname cli []) as [[[r cli'] new] calls]. simpl.
    destruct r as [[]|e]; [|destruct (is_Exception e)]; simpl;
      rewrite !lookup_insert_eq; repeat split; try reflexivity.
    + exists new. split; reflexivity.
    + exists (new ++ [error_event (pe_now pe) hostname e]).
      rewrite !app_assoc. split; reflexivity.
    + exists new. split; reflexivity.
  - simpl. split; [reflexivity|]. split; [congruence|]. split; [reflexivity|].
    exists []. rewrite !app_nil_r. split; reflexivity.
Qed.

(** C1.  When the task of a host fails (connect, authentication,
    command, parse failure or timeout), then whatever the policy flag
    it returns normally, so that nothing reaches [gather] and the loop,
    having put exactly one event on the queue, the error event of that
    failure, and it leaves the sessions of the other hosts untouched.
    The tasks run at the same time: the task of another host does the
    same (result, session, calls, events) when it resumes after the
    failing one as it does without it, and the failing task leaves its
    error event just the same when it resumes after the other. *)
Theorem poll_failure_one_error_event cfg pe hostname clients cli queue e :
  clients !! hostname = Some cli ->
  pe_cancelled pe = false ->
  tick_failure cfg pe cli e ->
  forall flag,
    let cfg' := with_flag cfg flag in
    let res := poll_one cfg' pe hostname clients queue in
    res.1.1.1 = Ok tt /\
    res.1.2 = queue ++ [error_event (pe_now pe) hostname e] /\
    is_error_event (error_event (pe_now pe) hostname e) /\
    (forall other, other <> hostname -> res.1.1.2 !! other = clients !! other) /\
    (forall other pe', other <> hostname ->
       let alone := poll_one cfg' pe' other clients queue in
       let beside := poll_one cfg' pe' other res.1.1.2 res.1.2 in
       beside.1.1.1 = alone.1.1.1 /\
       beside.1.1.2 !! other = alone.1.1.2 !! other /\
       beside.2 = alone.2 /\
       exists new, alone.1.2 = queue ++ new /\ beside.1.2 = res.1.2 ++ new) /\
    (forall other pe', other <> hostname ->
       let first := poll_one cfg' pe' other clients queue in
       let res' := poll_one cfg' pe hostname first.1.1.2 first.1.2 in
       res'.1.1.1 = Ok tt /\
       res'.1.2 = first.1.2 ++ [error_event (pe_now pe) hostname e] /\
       res'.1.1.2 !! hostname = res.1.1.2 !! hostname).
Proof.
  intros Hc Hcan Hf flag cfg' res.
  assert (Hf' : tick_failure cfg' pe cli e).
  { destruct Hf as [e' Hr Hin|out Hr Hl|out line e' Hr Hl Hs];
      [eapply fail_run|eapply fail_no_line|eapply fail_parse]; eauto. }
  assert (Hany : forall clients0 queue0,
            clients0 !! hostname = Some cli ->
            poll_one cfg' pe hostname clients0 queue0
            = (Ok tt,
               <[hostname := (run (pe_world pe) cli (sample_cmd cfg')).1.2]> clients0,
               queue0 ++ [error_event (pe_now pe) hostname e],
               (run (pe_world pe) cli (sample_cmd cfg')).2)).
  { intros clients0 queue0 Hc0. unfold poll_one. rewrite Hc0.
    rewrite (poll_body_failure cfg' pe hostname cli queue0 e Hcan Hf').
    rewrite (tick_failure_caught _ _ _ _ Hf'). reflexivity. }
  assert (Hres := Hany clients queue Hc). fold res in Hres.
  split; [rewrite Hres; reflexivity|].
  split; [rewrite Hres; reflexivity|].
  split; [apply error_event_shape|].
  split; [|split].
  - intros other Hne. subst res. apply poll_one_other, Hne.
  - intros other pe' Hne alone beside. subst alone beside.
    destruct (poll_one_independent cfg' pe' other res.1.1.2 clients res.1.2 queue)
      as (H1 & H2 & H3 & new & H4 & H5).
    { subst res. apply poll_one_other, Hne. }
    split; [exact H1|]. split; [exact H2|]. split; [exact H3|].
    exists new. split; [exact H5|exact H4].
  - intros other pe' Hne first res'. subst res'.
    assert (Hc1 : first.1.1.2 !! hostname = Some cli).
    { subst first. rewrite poll_one_other by congruence. exact Hc. }
    rewrite (Hany _ _ Hc1), Hres. simpl.
    split; [reflexivity|]. split; [reflexivity|].
    rewrite !lookup_insert_eq. reflexivity.
Qed.

Lemma poll_failure_one_error_event_witness :
  let cfg := example_config in
  let pe := mkPollEnv (world_unreachable unreachable) false
                      (str "2026-01-01T00:00:00+00:00") 0 0 in
  let res := poll_one (with_flag cfg true) pe (str "h1") example_clients [] in
  (example_clients !! str "h1" = Some example_client /\
   pe_cancelled pe = false /\
   tick_failure cfg pe example_client unreachable) /\
  res.1.1.1 = Ok tt /\
  res.1.2 = [] ++ [error_event (pe_now pe) (str "h1") unreachable].
Proof.
  intros cfg pe res.
  assert (H1 : example_clients !! str "h1" = Some example_client)
    by (vm_compute; reflexivity).
  assert (H2 : tick_failure cfg pe example_client unreachable).
  { apply fail_run; [vm_compute; reflexivity|].
    apply run_failure_classes_caught. simpl. auto. }
  split; [repeat split; assumption|].
  destruct (poll_failure_one_error_event cfg pe (str "h1") example_clients
              example_client [] unreachable H1 eq_refl H2 true)
    as (Ha & Hb & _).
  split; [exact Ha|exact Hb].
Defined.

(* ===================================================================== *)
(** * Properties: binary64 rounding keeps floats well formed *)
(* ===================================================================== *)

Lemma fexp_eq z : fexp prec emax z = Z.max (z - 53) (-1074).
Proof. reflexivity. Qed.

Lemma digits2_pos_log2 p : Zpos (digits2_pos p) = Z.log2 (Zpos p) + 1.
Proof.
  induction p as [p IH|p IH|]; [| |reflexivity].
  - change (digits2_pos p~1) with (Pos.succ (digits2_pos p)).
    rewrite Pos2Z.inj_succ, IH, Pos2Z.inj_xI, Z.log2_succ_double; lia.
  - change (digits2_pos p~0) with (Pos.succ (digits2_pos p)).
    rewrite Pos2Z.inj_succ, IH, Pos2Z.inj_xO, Z.log2_double; lia.
Qed.

Lemma Zdigits2_log2 m : 0 < m -> Zdigits2 m = Z.log2 m + 1.
Proof. destruct m as [|p|p]; try lia. intros _. apply digits2_pos_log2. Qed.

Lemma Zdigits2_nonneg m : 0 <= Zdigits2 m.
Proof. destruct m; simpl; lia. Qed.

(** The digits of a quotient by a power of two. *)
Lemma Zdigits2_div_pow2 m n :
  0 <= m -> 0 <= n ->
  Zdigits2 (m / 2 ^ n) = Z.max (Zdigits2 m - n) 0.
Proof.
  intros Hm Hn. destruct (Z.eq_dec m 0) as [->|Hm0].
  - rewrite Z.div_0_l by (apply Z.pow_nonzero; lia). simpl. lia.
  - assert (Hpos : 0 < m) by lia.
    rewrite (Zdigits2_log2 m Hpos).
    destruct (Z_lt_le_dec (Z.log2 m) n) as [Hlt|Hge].
    + rewrite <- Z.shiftr_div_pow2 by lia.
      rewrite (Z.shiftr_eq_0 m n) by lia. simpl. lia.
    + assert (0 < m / 2 ^ n).
      { apply Z.div_str_pos. split; [apply Z.pow_pos_nonneg; lia|].
        apply Z.log2_le_pow2; lia. }
      rewrite Zdigits2_log2 by lia.
      rewrite <- Z.shiftr_div_pow2 by lia.
      rewrite Z.log2_shiftr by lia. lia.
Qed.

(** The digits of a successor: at most one more. *)
Lemma Zdigits2_succ m :
  0 <= m -> Zdigits2 m <= Zdigits2 (m + 1) <= Zdigits2 m + 1.
Proof.
  intros Hm. destruct (Z.eq_dec m 0) as [->|Hm0]; [simpl; lia|].
  rewrite !Zdigits2_log2 by lia.
  pose proof (Z.log2_le_mono m (m + 1) ltac:(lia)).
  pose proof (Z.log2_succ_le m). unfold Z.succ in *. lia.
Qed.

Lemma shr_1_m mrs : 0 <= shr_m mrs -> shr_m (shr_1 mrs) = shr_m mrs / 2.
Proof.
  destruct mrs as [m r s]; simpl. intros Hm.
  rewrite <- Z.div2_div.
  destruct m as [|[p|p|]|p]; try reflexivity; lia.
Qed.

Lemma iter_shr_1_m n mrs :
  0 <= shr_m mrs ->
  shr_m (SpecFloat.iter_pos shr_1 n mrs) = shr_m mrs / 2 ^ Zpos n.
Proof.
  assert (Hp : forall k, 0 < 2 ^ Zpos k) by (intros; apply Z.pow_pos_nonneg; lia).
  revert mrs. induction n as [n IH|n IH|]; intros mrs H; simpl SpecFloat.iter_pos.
  - rewrite IH, IH, shr_1_m; auto using shr_1_nonneg, iter_shr_1_nonneg.
    pose proof (Hp n).
    rewrite !Z.div_div by lia.
    f_equal. replace (Zpos n~1) with (1 + Zpos n + Zpos n) by lia.
    rewrite !Z.pow_add_r by lia. change (2 ^ 1) with 2. lia.
  - rewrite IH, IH; auto using iter_shr_1_nonneg.
    pose proof (Hp n).
    rewrite !Z.div_div by lia.
    f_equal. replace (Zpos n~0) with (Zpos n + Zpos n) by lia.
    rewrite Z.pow_add_r by lia. reflexivity.
  - rewrite shr_1_m by assumption. reflexivity.
Qed.

(** [shr_fexp] divides the mantissa by the power of two that brings the
    exponent up to [fexp]. *)
Lemma shr_fexp_spec m e l :
  0 <= m ->
  let n := Z.max (fexp prec emax (Zdigits2 m + e) - e) 0 in
  shr_m (shr_fexp prec emax m e l).1 = m / 2 ^ n /\
  (shr_fexp prec emax m e l).2 = e + n.
Proof.
  intros Hm n. subst n. unfold shr_fexp, shr.
  assert (H0 : shr_m (shr_record_of_loc m l) = m)
    by (destruct l as [|[ | | ]]; reflexivity).
  destruct (fexp prec emax (Zdigits2 m + e) - e) as [|p|p] eqn:E; simpl.
  - rewrite H0, Z.div_1_r. split; [reflexivity|lia].
  - rewrite iter_shr_1_m by (rewrite H0; exact Hm). rewrite H0.
    rewrite Z.max_l by lia. split; reflexivity.
  - rewrite H0, Z.div_1_r. split; [reflexivity|lia].
Qed.

Lemma round_nearest_even_cases m l :
  round_nearest_even m l = m \/ round_nearest_even m l = m + 1.
Proof.
  destruct l as [|[ | | ]]; simpl; auto. destruct (Z.even m); auto.
Qed.

(** The rounding step yields a zero, an infinity, or a finite float in
    canonical form, from any mantissa with enough digits. *)
Lemma binary_round_aux_valid s m e l :
  0 <= m -> e <= fexp prec emax (Zdigits2 m + e) ->
  valid_binary prec emax (binary_round_aux prec emax s m e l) = true.
Proof.
  intros Hm He. unfold binary_round_aux.
  destruct (shr_fexp_spec m e l Hm) as [Hm1 He1].
  destruct (shr_fexp prec emax m e l) as [mrs' e'] eqn:E1. simpl in Hm1, He1.
  set (m1 := shr_m mrs') in *.
  set (m1' := round_nearest_even m1 (loc_of_shr_record mrs')).
  assert (Hm1nn : 0 <= m1).
  { pose proof (shr_fexp_nonneg m e l Hm) as H. rewrite E1 in H. exact H. }
  assert (Hm1' : 0 <= m1') by (apply round_nearest_even_nonneg; exact Hm1nn).
  destruct (shr_fexp_spec m1' e' loc_Exact Hm1') as [Hm2 He2].
  destruct (shr_fexp prec emax m1' e' loc_Exact) as [mrs'' e''] eqn:E2.
  simpl in Hm2, He2.
  destruct (shr_m mrs'') as [|q|q] eqn:Eq; [reflexivity| |reflexivity].
  destruct (e'' <=? emax - prec) eqn:Ele; [|reflexivity].
  simpl. unfold bounded. rewrite Ele, andb_true_r.
  unfold canonical_mantissa. apply Z.eqb_eq.
  change (Zpos (digits2_pos q)) with (Zdigits2 (Zpos q)).
  (* digits of the three mantissas *)
  pose proof (Zdigits2_div_pow2 m (Z.max (fexp prec emax (Zdigits2 m + e) - e) 0)
                Hm ltac:(lia)) as D1.
  rewrite <- Hm1 in D1.
  pose proof (Zdigits2_div_pow2 m1' (Z.max (fexp prec emax (Zdigits2 m1' + e') - e') 0)
                Hm1' ltac:(lia)) as D2.
  rewrite <- Hm2 in D2.
  pose proof (Zdigits2_succ m1 Hm1nn) as D3.
  assert (D4 : Zdigits2 m1' = Zdigits2 m1 \/
               (m1' = m1 + 1 /\ Zdigits2 m1' = Zdigits2 m1 + 1)).
  { destruct (round_nearest_even_cases m1 (loc_of_shr_record mrs')) as [H|H];
      fold m1' in H; rewrite H; [left; reflexivity|].
    destruct (Z.eq_dec (Zdigits2 (m1 + 1)) (Zdigits2 m1)); [left; assumption|].
    right. split; [reflexivity|lia]. }
  assert (D5 : 0 < Zdigits2 (Zpos q)) by (simpl; lia).
  pose proof (Zdigits2_nonneg m) as N0.
  pose proof (Zdigits2_nonneg m1) as N1.
  rewrite !fexp_eq in *.
  lia.
Qed.

Lemma iter_xO_pow2 p m : Zpos (Pos.iter xO m p) = Zpos m * 2 ^ Zpos p.
Proof.
  induction p as [|p IH] using Pos.peano_ind.
  - simpl. lia.
  - rewrite Pos.iter_succ, Pos2Z.inj_xO, IH, Pos2Z.inj_succ, Z.pow_succ_r by lia. lia.
Qed.

(** [shl_align] keeps the value and lowers the exponent to the target,
    when the target is below. *)
Lemma shl_align_spec mx ex ex' :
  let '(mz, ez) := shl_align mx ex ex' in
  ez = Z.min ex ex' /\ Zpos mz = Zpos mx * 2 ^ (ex - ez).
Proof.
  unfold shl_align. destruct (ex' - ex) as [|d|d] eqn:E.
  - split; [lia|]. rewrite Z.sub_diag. change (2 ^ 0) with 1. lia.
  - split; [lia|]. rewrite Z.sub_diag. change (2 ^ 0) with 1. lia.
  - split; [lia|]. rewrite iter_xO_pow2. f_equal. f_equal. lia.
Qed.

Lemma Zdigits2_mul_pow2 m n :
  0 < m -> 0 <= n -> Zdigits2 (m * 2 ^ n) = Zdigits2 m + n.
Proof.
  intros Hm Hn.
  assert (0 < m * 2 ^ n) by (apply Z.mul_pos_pos; [lia|apply Z.pow_pos_nonneg; lia]).
  rewrite !Zdigits2_log2, Z.log2_mul_pow2 by lia. lia.
Qed.

Lemma binary_round_valid s m e :
  valid_binary prec emax (binary_round prec emax s m e) = true.
Proof.
  unfold binary_round.
  pose proof (shl_align_spec m e (fexp prec emax (Zpos (digits2_pos m) + e))) as H.
  destruct (shl_align m e _) as [mz ez]. destruct H as [Hez Hmz].
  apply binary_round_aux_valid; [lia|].
  rewrite Hmz, Zdigits2_mul_pow2 by lia.
  change (Zdigits2 (Zpos m)) with (Zpos (digits2_pos m)).
  replace (Zpos (digits2_pos m) + (e - ez) + ez) with (Zpos (digits2_pos m) + e) by lia.
  lia.
Qed.

Lemma binary_normalize_valid z e sz :
  valid_binary prec emax (binary_normalize prec emax z e sz) = true.
Proof. destruct z; simpl; [reflexivity| |]; apply binary_round_valid. Qed.

(** Subtraction of well-formed floats is well formed. *)
Lemma fsub_valid x y :
  valid_binary prec emax x = true -> valid_binary prec emax y = true ->
  valid_binary prec emax (fsub x y) = true.
Proof.
  intros Hx Hy. unfold fsub, SFsub.
  destruct x as [sx|sx| |sx mx ex]; destruct y as [sy|sy| |sy my ey];
    try reflexivity; try assumption;
    try (destruct sx, sy; reflexivity).
  apply binary_normalize_valid.
Qed.

Lemma float_of_int_valid z f :
  float_of_int z = Some f -> valid_binary prec emax f = true.
Proof.
  unfold float_of_int. pose proof (binary_normalize_valid z 0 false) as H.
  destruct (binary_normalize prec emax z 0 false); intros [= <-]; try exact H.
Qed.

(** ** Order and sign *)

(** The mantissa of a canonical float, aligned to a lower exponent. *)
Lemma canonical_bounds m e :
  bounded prec emax m e = true ->
  (-1074 <= e) /\ Zpos m < 2 ^ 53 /\ (-1074 < e -> 2 ^ 52 <= Zpos m).
Proof.
  unfold bounded, canonical_mantissa. intros H.
  apply andb_true_iff in H as [H _]. apply Z.eqb_eq in H. rewrite fexp_eq in H.
  rewrite digits2_pos_log2 in H.
  pose proof (Z.log2_spec (Zpos m) ltac:(lia)) as [L1 L2].
  pose proof (Z.log2_nonneg (Zpos m)) as L0.
  split; [lia|]. split.
  - eapply Z.lt_le_trans; [exact L2|]. apply Z.pow_le_mono_r; lia.
  - intros He. eapply Z.le_trans; [|exact L1]. apply Z.pow_le_mono_r; lia.
Qed.

(** For canonical floats the lower exponent means the smaller number. *)
Lemma canonical_lt m1 e1 m2 e2 :
  bounded prec emax m1 e1 = true -> bounded prec emax m2 e2 = true ->
  e1 < e2 ->
  Zpos m1 < Zpos m2 * 2 ^ (e2 - e1).
Proof.
  intros H1 H2 Hlt.
  destruct (canonical_bounds _ _ H1) as (A1 & B1 & _).
  destruct (canonical_bounds _ _ H2) as (A2 & _ & C2).
  specialize (C2 ltac:(lia)).
  assert (2 ^ 1 <= 2 ^ (e2 - e1)) by (apply Z.pow_le_mono_r; lia).
  change (2 ^ 1) with 2 in *. change (2 ^ 53) with (2 ^ 52 * 2) in B1. nia.
Qed.

Lemma has_sign_true_not_positive x : has_sign true x -> fgt x fzero = false.
Proof.
  destruct x as [[|]|[|]| |[|] m e]; simpl; intros H; try discriminate;
    try tauto; reflexivity.
Qed.

Lemma binary_normalize_nonpos z e :
  z <= 0 -> fgt (binary_normalize prec emax z e false) fzero = false.
Proof.
  intros Hz. destruct z as [|p|p]; [reflexivity|lia|].
  apply has_sign_true_not_positive. simpl. apply binary_round_sign.
Qed.

(** [x <= y] for well-formed floats makes [x - y] not positive. *)
Lemma fsub_not_positive x y :
  valid_binary prec emax x = true -> valid_binary prec emax y = true ->
  fge y x = true -> fgt (fsub x y) fzero = false.
Proof.
  unfold fge, SFleb, fsub, SFsub. intros Hx Hy.
  destruct x as [sx|sx| |sx mx ex]; destruct y as [sy|sy| |sy my ey];
    try discriminate; try (destruct sx, sy; simpl; intros; reflexivity || discriminate);
    try (destruct sx; simpl; intros; reflexivity || discriminate);
    try (destruct sy; simpl; intros; reflexivity || discriminate).
  simpl in Hx, Hy. intros Hle. apply binary_normalize_nonpos.
  pose proof (shl_align_spec mx ex (Z.min ex ey)) as Ax.
  pose proof (shl_align_spec my ey (Z.min ex ey)) as Ay.
  destruct (shl_align mx ex (Z.min ex ey)) as [ax zx].
  destruct (shl_align my ey (Z.min ex ey)) as [ay zy].
  destruct Ax as [-> Ax], Ay as [-> Ay]. simpl fst.
  rewrite Ax, Ay. clear Ax Ay ax ay.
  assert (Px : 0 < 2 ^ (ex - Z.min ex (Z.min ex ey)))
    by (apply Z.pow_pos_nonneg; lia).
  assert (Py : 0 < 2 ^ (ey - Z.min ey (Z.min ex ey)))
    by (apply Z.pow_pos_nonneg; lia).
  simpl in Hle.
  destruct sx, sy; simpl; try discriminate; try nia.
  - (* both negative: [x <= y] means the magnitude of [x] is the larger *)
    destruct (ex ?= ey) eqn:E.
    + apply Z.compare_eq in E. subst ey.
      change (Pos.compare_cont Eq mx my) with (Pos.compare mx my) in Hle.
      destruct (Pos.compare mx my) eqn:E'; simpl in Hle; try discriminate.
      * apply Pos.compare_eq in E'. subst. lia.
      * apply Pos.compare_gt_iff in E'.
        replace (Z.min ex (Z.min ex ex)) with ex in * by lia.
        rewrite Z.sub_diag. change (2 ^ 0) with 1. lia.
    + discriminate.
    + apply Z.compare_gt_iff in E.
      pose proof (canonical_lt _ _ _ _ Hy Hx E).
      replace (Z.min ex (Z.min ex ey)) with ey by lia.
      replace (Z.min ey (Z.min ex ey)) with ey by lia.
      rewrite Z.sub_diag. change (2 ^ 0) with 1. lia.
  - (* both positive *)
    destruct (ex ?= ey) eqn:E.
    + apply Z.compare_eq in E. subst ey.
      change (Pos.compare_cont Eq mx my) with (Pos.compare mx my) in Hle.
      destruct (Pos.compare mx my) eqn:E'; simpl in Hle; try discriminate.
      * apply Pos.compare_eq in E'. subst. lia.
      * change (mx < my)%positive in E'.
        replace (Z.min ex (Z.min ex ex)) with ex in * by lia.
        rewrite Z.sub_diag. change (2 ^ 0) with 1. lia.
    + change (ex < ey) in E.
      pose proof (canonical_lt _ _ _ _ Hx Hy E).
      replace (Z.min ex (Z.min ex ey)) with ex by lia.
      replace (Z.min ey (Z.min ex ey)) with ex by lia.
      rewrite Z.sub_diag. change (2 ^ 0) with 1. lia.
    + discriminate.
Qed.

(* ===================================================================== *)
(** * Properties: the scheduler *)
(* ===================================================================== *)

(** [max(0, interval - elapsed)] is [0] as soon as the elapsed time
    reaches the interval. *)
Lemma sleep_duration_zero interval i elapsed :
  float_of_int interval = Some i ->
  valid elapsed -> fge elapsed i = true ->
  sleep_duration interval elapsed = Ok (PInt 0).
Proof.
  intros Hi Hv Hge. unfold sleep_duration. rewrite Hi.
  rewrite (fsub_not_positive i elapsed (float_of_int_valid _ _ Hi) Hv Hge).
  reflexivity.
Qed.

(** C8.  In every tick whose tasks have all been joined, and for an
    interval that converts to a float, the scheduler then sleeps for
    exactly [max(0, interval - elapsed)], [elapsed] being the clock
    reading after the join minus the reading at the start of the tick;
    when [elapsed >= interval] the duration is [0]; and the next tick
    runs from the state this one left, with no lateness carried over. *)
Theorem sleep_until_next_tick cfg hosts te clients queue i :
  let elapsed := fsub (te_end te) (te_start te) in
  let joined :=
    gather cfg (completion_order (imap (fun k h => (h, te_poll te k)) hosts))
           clients queue in
  let res := tick cfg hosts te clients queue in
  joined.1.1.1 = Ok tt ->
  float_of_int (interval cfg) = Some i ->
  res.1.1.1.1 = Ok tt /\
  res.1.1.1.2 = joined.1.1.2 /\
  res.1.1.2 = joined.1.2 /\
  res.2 = Some (if fgt (fsub i elapsed) fzero
                then PFloat (fsub i elapsed) else PInt 0) /\
  (valid (te_start te) -> valid (te_end te) -> fge elapsed i = true ->
   res.2 = Some (PInt 0)) /\
  (forall rest d, res.2 = Some d ->
     let next := ticks cfg hosts rest res.1.1.1.2 res.1.1.2 in
     ticks cfg hosts (te :: rest) clients queue
     = (next.1.1.1, next.1.1.2, next.1.2, d :: next.2)).
Proof.
  intros elapsed joined res Hj Hi.
  assert (Hres : res = (Ok tt, joined.1.1.2, joined.1.2, joined.2,
                        Some (if fgt (fsub i elapsed) fzero
                              then PFloat (fsub i elapsed) else PInt 0))).
  { subst res. unfold tick. fold joined.
    destruct joined as [[[r c1] q1] calls]. simpl in Hj. subst r.
    fold elapsed. unfold sleep_duration. rewrite Hi. reflexivity. }
  split; [rewrite Hres; reflexivity|].
  split; [rewrite Hres; reflexivity|].
  split; [rewrite Hres; reflexivity|].
  split; [rewrite Hres; reflexivity|].
  split.
  - intros Hs He Hge. rewrite Hres. simpl.
    rewrite (fsub_not_positive i elapsed (float_of_int_valid _ _ Hi)
               (fsub_valid _ _ He Hs) Hge). reflexivity.
  - intros rest d Hd next. subst next. simpl ticks. fold res.
    rewrite Hres in *. simpl in *. injection Hd as <-.
    destruct (ticks cfg hosts rest _ _) as [[[r c2] q2] sl]. reflexivity.
Qed.

Lemma sleep_until_next_tick_witness :
  let cfg := example_config in
  let hosts := [str "h1"] in
  let te := example_tick (str "   12.0   3.0   80.0   5.0") in
  let i := S754_finite false 5629499534213120 (-49) in
  let elapsed := fsub (te_end te) (te_start te) in
  let joined :=
    gather cfg (completion_order (imap (fun k h => (h, te_poll te k)) hosts))
           example_clients [] in
  let res := tick cfg hosts te example_clients [] in
  (joined.1.1.1 = Ok tt /\ float_of_int (interval cfg) = Some i /\
   valid (te_start te) /\ valid (te_end te) /\ fge elapsed i = true) /\
  res.1.1.1.1 = Ok tt /\
  res.2 = Some (if fgt (fsub i elapsed) fzero
                then PFloat (fsub i elapsed) else PInt 0) /\
  res.2 = Some (PInt 0).
Proof.
  intros cfg hosts te i elapsed joined res.
  assert (H1 : joined.1.1.1 = Ok tt) by (vm_compute; reflexivity).
  assert (H2 : float_of_int (interval cfg) = Some i) by (vm_compute; reflexivity).
  assert (H3 : valid (te_start te)) by reflexivity.
  assert (H4 : valid (te_end te)) by reflexivity.
  assert (H5 : fge elapsed i = true) by (vm_compute; reflexivity).
  split; [repeat split; assumption|].
  destruct (sleep_until_next_tick cfg hosts te example_clients [] i H1 H2)
    as (Ha & _ & _ & Hb & Hc & _).
  split; [exact Ha|]. split; [exact Hb|exact (Hc H3 H4 H5)].
Defined.

(* ===================================================================== *)
(** * Further properties: the sampler *)
(* ===================================================================== *)

(** X1.  On a line of ASCII characters the sampler keeps exactly the
    tokens that are decimal numerals; with four or more of them it
    returns the last four, in order, as us, sy, id, wa, with usage
    [(us + sy) + wa], none of the five negative or NaN; with fewer it
    raises the [ValueError] that quotes the line. *)
Theorem sampler_ascii_line line :
  is_ascii line ->
  let toks := numeric_tokens line in
  toks = List.filter decimal_numeral (split (strip line)) /\
  ((4 <= length toks)%nat ->
     exists us sy idl wa,
       List.map float_of_token (last_n 4 toks) = [Some us; Some sy; Some idl; Some wa] /\
       _compute_cpu_usage_from_vmstat line
         = Ok (mkReading us sy idl wa (fadd (fadd us sy) wa)) /\
       nonneg us /\ nonneg sy /\ nonneg idl /\ nonneg wa /\
       nonneg (fadd (fadd us sy) wa)) /\
  ((length toks < 4)%nat ->
     _compute_cpu_usage_from_vmstat line
       = Err (Exc ValueError (TextRepr (str "Unexpected vmstat output: ") line))).
Proof.
  intros Ha. apply sampler_decimal_line, ascii_tokens_decimal, Ha.
Qed.

Lemma sampler_ascii_line_witness :
  let line := str "   12.0   3.0   80.0   5.0" in
  let toks := numeric_tokens line in
  is_ascii line /\
  toks = List.filter decimal_numeral (split (strip line)) /\
  (4 <= length toks)%nat /\
  exists us sy idl wa,
    _compute_cpu_usage_from_vmstat line
      = Ok (mkReading us sy idl wa (fadd (fadd us sy) wa)) /\
    nonneg (fadd (fadd us sy) wa).
Proof.
  intros line toks.
  assert (Ha : is_ascii line).
  { unfold is_ascii. apply List.Forall_forall. intros c Hc.
    vm_compute in Hc. repeat (destruct Hc as [<-|Hc]; [reflexivity|]). destruct Hc. }
  destruct (sampler_ascii_line line Ha) as (H1 & H2 & _).
  assert (Hlen : (4 <= length toks)%nat) by (vm_compute; lia).
  destruct (H2 Hlen) as (us & sy & idl & wa & _ & E & _ & _ & _ & _ & Hn).
  split; [exact Ha|]. split; [exact H1|]. split; [exact Hlen|].
  exists us, sy, idl, wa. split; assumption.
Defined.

(** X2.  Whatever the line, the sampler returns a reading or raises a
    [ValueError], nothing else; and a reading it returns has usage
    [(us + sy) + wa]. *)
Theorem sampler_total line :
  (exists cpu, _compute_cpu_usage_from_vmstat line = Ok cpu /\
               cpu_usage cpu = fadd (fadd (cpu_us cpu) (cpu_sy cpu)) (cpu_wa cpu) /\
               (4 <= length (numeric_tokens line))%nat) \/
  (exists e, _compute_cpu_usage_from_vmstat line = Err e /\
             exc_class e = ValueError).
Proof.
  destruct (_compute_cpu_usage_from_vmstat line) as [cpu|e] eqn:E.
  - left. exists cpu. split; [reflexivity|]. split; [apply (sampler_usage _ _ E)|].
    unfold _compute_cpu_usage_from_vmstat in E.
    destruct (Nat.ltb_spec (length (numeric_tokens line)) 4); [discriminate|lia].
  - right. exists e. split; [reflexivity|apply (sampler_error _ _ E)].
Qed.

(** ** The token filter *)

Lemma dot_not_digit : isdigit_char dot = false.
Proof. vm_compute. reflexivity. Qed.

Lemma digits_no_dot s :
  forallb isdigit_char s = true -> count_occ N.eq_dec s dot = 0%nat.
Proof.
  induction s as [|c s IH]; simpl; [reflexivity|].
  intros H. apply andb_true_iff in H as [Hc Hs].
  destruct (N.eq_dec c dot) as [->|_]; [rewrite dot_not_digit in Hc; discriminate|].
  apply IH, Hs.
Qed.

Lemma replace_first_dot_digits t :
  forallb isdigit_char (replace_first_dot t) = true <->
  Forall (fun c => c = dot \/ isdigit_char c = true) t /\
  (count_occ N.eq_dec t dot <= 1)%nat.
Proof.
  induction t as [|c t IH]; simpl.
  - split; [intros _; split; [constructor|lia]|reflexivity].
  - destruct (N.eqb_spec c dot) as [->|Hne].
    + destruct (N.eq_dec dot dot) as [_|Hn]; [|congruence]. split.
      * intros H. split.
        -- constructor; [left; reflexivity|].
           apply List.Forall_forall. intros x Hx. right.
           rewrite forallb_forall in H. apply H, Hx.
        -- rewrite (digits_no_dot _ H). lia.
      * intros [HF Hc]. inversion HF as [|? ? _ HF']; subst.
        apply forallb_forall. intros x Hx.
        rewrite List.Forall_forall in HF'. destruct (HF' _ Hx) as [->|Hd]; [|exact Hd].
        exfalso. assert (count_occ N.eq_dec t dot > 0)%nat
          by (apply count_occ_In; exact Hx). lia.
    + destruct (N.eq_dec c dot) as [Heq|_]; [congruence|]. simpl.
      rewrite andb_true_iff, IH. split.
      * intros (Hc & HF & Hn). split; [constructor; auto|exact Hn].
      * intros (HF & Hn). inversion HF as [|? ? [Hc|Hc] HF']; subst;
          [congruence|auto].
Qed.

Lemma replace_first_dot_empty t :
  Forall (fun c => c = dot \/ isdigit_char c = true) t ->
  (is_empty (replace_first_dot t) = false <->
   (exists c, In c t /\ isdigit_char c = true) \/
   (count_occ N.eq_dec t dot >= 2)%nat).
Proof.
  intros HF. destruct t as [|c t]; simpl.
  - split; [discriminate|]. intros [(c & [] & _)|H]; lia.
  - inversion HF as [|? ? Hc HF']; subst.
    destruct (N.eqb_spec c dot) as [->|Hne].
    + destruct (N.eq_dec dot dot) as [_|Hn]; [|congruence].
      destruct t as [|c' t]; simpl.
      * split; [discriminate|]. intros [(c & [<-|[]] & Hd)|H]; [|lia].
        rewrite dot_not_digit in Hd. discriminate.
      * split; [|reflexivity]. intros _.
        inversion HF' as [|? ? [->|Hc'] _]; subst.
        -- right. destruct (N.eq_dec dot dot); [lia|congruence].
        -- left. exists c'. simpl. auto.
    + split; [|reflexivity]. intros _. left. exists c.
      destruct Hc as [Hc|Hc]; [congruence|]. simpl. auto.
Qed.

(** X3.  The filter keeps a token exactly when it consists of digits
    (in the sense of [str.isdigit]) and at most one point, with at least
    one digit: a sign, an exponent, a second point or any other
    character makes the sampler skip the token. *)
Theorem numeric_token_shape t :
  is_numeric_token t = true <->
  Forall (fun c => c = dot \/ isdigit_char c = true) t /\
  (count_occ N.eq_dec t dot <= 1)%nat /\
  (exists c, In c t /\ isdigit_char c = true).
Proof.
  unfold is_numeric_token, isdigit. rewrite andb_true_iff, negb_true_iff.
  rewrite replace_first_dot_digits. split.
  - intros (He & HF & Hn). split; [exact HF|]. split; [exact Hn|].
    apply (replace_first_dot_empty t HF) in He as [He|He]; [exact He|lia].
  - intros (HF & Hn & Hd). split; [|split; assumption].
    apply (replace_first_dot_empty t HF). left. exact Hd.
Qed.

(** ** White space around the line *)

Lemma split_from_lstrip s : split_from [] (lstrip s) = split_from [] s.
Proof.
  induction s as [|c s IH]; simpl; [reflexivity|].
  destruct (isspace c) eqn:E; [exact IH|]. simpl. rewrite E. reflexivity.
Qed.

Lemma split_from_space_prefix ws s :
  Forall (fun c => isspace c = true) ws ->
  split_from [] (ws ++ s) = split_from [] s.
Proof.
  induction 1 as [|c ws Hc _ IH]; simpl; [reflexivity|]. rewrite Hc. exact IH.
Qed.

Lemma split_from_space_suffix ws : forall s cur,
  Forall (fun c => isspace c = true) ws ->
  split_from cur (s ++ ws) = split_from cur s.
Proof.
  intros s cur Hws. revert cur. induction s as [|c s IH]; intros cur; simpl.
  - revert cur. induction Hws as [|w ws Hw _ IHw]; intros cur; simpl; [reflexivity|].
    rewrite Hw. destruct cur as [|x cur].
    + apply (IHw []).
    + rewrite (IHw []). reflexivity.
  - destruct (isspace c); [|apply IH].
    destruct cur; rewrite IH; reflexivity.
Qed.

Lemma lstrip_decompose s :
  exists ws, s = ws ++ lstrip s /\ Forall (fun c => isspace c = true) ws.
Proof.
  induction s as [|c s (ws & E & H)]; simpl.
  - exists []. auto.
  - destruct (isspace c) eqn:Ec.
    + exists (c :: ws). split; [simpl; congruence|constructor; assumption].
    + exists []. auto.
Qed.

(** [line.strip()] before [split()] changes nothing. *)
Lemma split_strip s : split (strip s) = split s.
Proof.
  unfold split, strip.
  destruct (lstrip_decompose (rev (lstrip s))) as (ws & E & Hws).
  assert (E' : lstrip s = rev (lstrip (rev (lstrip s))) ++ rev ws).
  { rewrite <- rev_app_distr, <- E, rev_involutive. reflexivity. }
  rewrite <- (split_from_lstrip s). rewrite E' at 2.
  rewrite split_from_space_suffix; [reflexivity|].
  apply Forall_rev. exact Hws.
Qed.

(** X4.  White space before and after the line does not change what the
    sampler reads: the kept tokens are the same, a reading is returned
    for the one line exactly when one is returned for the other, and it
    is the same reading. *)
Theorem sampler_ignores_outer_space a b line :
  Forall (fun c => isspace c = true) a ->
  Forall (fun c => isspace c = true) b ->
  numeric_tokens (a ++ line ++ b) = numeric_tokens line /\
  forall cpu,
    _compute_cpu_usage_from_vmstat (a ++ line ++ b) = Ok cpu <->
    _compute_cpu_usage_from_vmstat line = Ok cpu.
Proof.
  intros Ha Hb.
  assert (E : numeric_tokens (a ++ line ++ b) = numeric_tokens line).
  { unfold numeric_tokens. rewrite !split_strip. unfold split.
    rewrite split_from_space_prefix, split_from_space_suffix by assumption.
    reflexivity. }
  split; [exact E|]. intros cpu. unfold _compute_cpu_usage_from_vmstat.
  rewrite E. destruct (_ <? _)%nat; [split; discriminate|].
  destruct (map_float _) as [[|us [|sy [|idl [|wa [|? ?]]]]]|e];
    split; intros H; try discriminate; exact H.
Qed.

Lemma sampler_ignores_outer_space_witness :
  let a := str "  " in
  let b := [10%N] in
  let line := str "12.0 3.0 80.0 5.0" in
  (Forall (fun c => isspace c = true) a /\
   Forall (fun c => isspace c = true) b) /\
  numeric_tokens (a ++ line ++ b) = numeric_tokens line.
Proof.
  intros a b line.
  assert (Ha : Forall (fun c => isspace c = true) a) by (repeat constructor).
  assert (Hb : Forall (fun c => isspace c = true) b) by (repeat constructor).
  exact (conj (conj Ha Hb) (proj1 (sampler_ignores_outer_space a b line Ha Hb))).
Defined.

(** X5.  Only the last four kept tokens count: two lines with at least
    four kept tokens each and the same last four give the same result,
    whatever columns come before. *)
Theorem sampler_last_four line1 line2 :
  (4 <= length (numeric_tokens line1))%nat ->
  (4 <= length (numeric_tokens line2))%nat ->
  last_n 4 (numeric_tokens line1) = last_n 4 (numeric_tokens line2) ->
  _compute_cpu_usage_from_vmstat line1 = _compute_cpu_usage_from_vmstat line2.
Proof.
  intros H1 H2 E. unfold _compute_cpu_usage_from_vmstat.
  destruct (Nat.ltb_spec (length (numeric_tokens line1)) 4); [lia|].
  destruct (Nat.ltb_spec (length (numeric_tokens line2)) 4); [lia|].
  rewrite E. reflexivity.
Qed.

Lemma sampler_last_four_witness :
  let line1 := str "1 0 123 456 12.0 3.0 80.0 5.0" in
  let line2 := str "kthr 12.0 3.0 80.0 5.0" in
  ((4 <= length (numeric_tokens line1))%nat /\
   (4 <= length (numeric_tokens line2))%nat /\
   last_n 4 (numeric_tokens line1) = last_n 4 (numeric_tokens line2)) /\
  _compute_cpu_usage_from_vmstat line1 = _compute_cpu_usage_from_vmstat line2.
Proof.
  intros line1 line2.
  assert (H1 : (4 <= length (numeric_tokens line1))%nat) by (vm_compute; lia).
  assert (H2 : (4 <= length (numeric_tokens line2))%nat) by (vm_compute; lia).
  assert (E : last_n 4 (numeric_tokens line1) = last_n 4 (numeric_tokens line2))
    by (vm_compute; reflexivity).
  exact (conj (conj H1 (conj H2 E)) (sampler_last_four line1 line2 H1 H2 E)).
Defined.

(* ===================================================================== *)
(** * Further properties: the session *)
(* ===================================================================== *)

(** X6.  On a session that holds a handle, [run] makes one call,
    [exec_command] on that handle with the session's timeout, and leaves
    the session as it was, whether the command succeeds, fails or times
    out; [connect] on it does nothing. *)
Theorem run_reuses_session w self h cmd :
  _client self = Some h ->
  (run w self cmd).1.2 = self /\
  (run w self cmd).2 = [AExec h cmd (timeout self)] /\
  connect w self = (Ok tt, self, []).
Proof.
  intros H. rewrite (run_with_handle _ _ _ _ H), (connect_connected _ _ _ H).
  destruct (do_exec w h cmd (timeout self)); simpl; auto.
Qed.

Lemma run_reuses_session_witness :
  let w := world_unreachable unreachable in
  let self := set_client example_client (Some (mkHandle true)) in
  let cmd := str "vmstat 1 2 | tail -1" in
  _client self = Some (mkHandle true) /\
  (run w self cmd).1.2 = self /\
  (run w self cmd).2 = [AExec (mkHandle true) cmd (timeout self)] /\
  connect w self = (Ok tt, self, []).
Proof.
  intros w self cmd.
  exact (conj eq_refl (run_reuses_session w self (mkHandle true) cmd eq_refl)).
Defined.

Lemma connect_settings w self : settings (connect w self).1.2 = settings self.
Proof.
  unfold connect. destruct (_client self); [reflexivity|].
  destruct (load_key w _) as [k loads].
  destruct (do_connect w _); reflexivity.
Qed.

Lemma run_settings w self cmd : settings (run w self cmd).1.2 = settings self.
Proof.
  destruct (_client self) as [h|] eqn:Hc.
  - rewrite (run_with_handle _ _ _ _ Hc).
    destruct (do_exec w h cmd (timeout self)); reflexivity.
  - rewrite (run_fresh _ _ _ Hc). cbv zeta.
    destruct (do_connect w _); [reflexivity|].
    destruct (do_exec w _ cmd (timeout self)); reflexivity.
Qed.

Lemma close_settings w self : settings (close w self).1.2 = settings self.
Proof.
  unfold close. destruct (_client self) as [h|]; [|reflexivity].
  destruct (do_close w h); reflexivity.
Qed.

(** X7.  No method changes the host, user name, port, key path,
    password or timeout of a session: only the handle changes. *)
Theorem session_settings_kept w self cmd :
  settings (connect w self).1.2 = settings self /\
  settings (run w self cmd).1.2 = settings self /\
  settings (close w self).1.2 = settings self.
Proof.
  split; [apply connect_settings|]. split; [apply run_settings|apply close_settings].
Qed.

(** The calls of [run], counted. *)
Lemma run_connect_count w self cmd :
  length (List.filter is_connect (run w self cmd).2)
  = match _client self with Some _ => 0%nat | None => 1%nat end.
Proof.
  assert (Hl : forall l, Forall is_load l -> List.filter is_connect l = []).
  { induction 1 as [|a l Ha _ IH]; simpl; [reflexivity|].
    destruct a; simpl in *; try tauto; exact IH. }
  destruct (_client self) as [h|] eqn:Hc.
  - rewrite (run_with_handle _ _ _ _ Hc).
    destruct (do_exec w h cmd (timeout self)); reflexivity.
  - rewrite (run_fresh _ _ _ Hc). cbv zeta.
    pose proof (Hl _ (load_key_calls w self)) as Hf.
    destruct (do_connect w _).
    + simpl. rewrite List.filter_app, Hf. reflexivity.
    + destruct (do_exec w _ cmd (timeout self)); simpl;
        rewrite !List.filter_app, Hf; reflexivity.
Qed.

(** X8.  After [run] the session always holds a handle; [run] makes at
    most one connection attempt, and makes one exactly when the session
    held no handle; the handle it then leaves is a connected one exactly
    when that attempt succeeded. *)
Theorem run_handle_state w self cmd :
  _client (run w self cmd).1.2 <> None /\
  length (List.filter is_connect (run w self cmd).2)
    = match _client self with Some _ => 0%nat | None => 1%nat end /\
  (_client self = None ->
     _client (run w self cmd).1.2
     = Some (mkHandle
               match do_connect w (connect_call self (loaded_key w self)) with
               | None => true
               | Some _ => false
               end)).
Proof.
  split; [|split; [apply run_connect_count|]].
  - destruct (_client self) as [h|] eqn:Hc.
    + rewrite (run_with_handle _ _ _ _ Hc).
      destruct (do_exec w h cmd (timeout self)); simpl; congruence.
    + rewrite (run_fresh _ _ _ Hc). cbv zeta.
      destruct (do_connect w _); [discriminate|].
      destruct (do_exec w _ cmd (timeout self)); discriminate.
  - intros Hc. rewrite (run_fresh _ _ _ Hc). cbv zeta.
    destruct (do_connect w _); [reflexivity|].
    destruct (do_exec w _ cmd (timeout self)); reflexivity.
Qed.

Lemma run_handle_state_witness :
  _client example_client = None /\
  _client (run (world_unreachable unreachable) example_client
               (str "vmstat 1 2 | tail -1")).1.2
  = Some (mkHandle false).
Proof.
  destruct (run_handle_state (world_unreachable unreachable) example_client
              (str "vmstat 1 2 | tail -1")) as (_ & _ & F).
  exact (conj eq_refl (F eq_refl)).
Defined.

(** X9.  [close] puts the session back where [run] connects anew:
    whatever the session was and whether or not the handle's [close]
    raised, the next [run] creates a handle and makes one connection
    attempt, with the arguments a fresh session would use. *)
Theorem close_then_run_reconnects w1 w2 self cmd :
  let closed := (close w1 self).1.2 in
  let calls := (run w2 closed cmd).2 in
  head calls = Some ANewClient /\
  In (AConnect (connect_call self (loaded_key w2 self))) calls /\
  length (List.filter is_connect calls) = 1%nat.
Proof.
  intros closed calls.
  assert (Hc : _client closed = None).
  { subst closed. unfold close. destruct (_client self) as [h|]; [|reflexivity].
    destruct (do_close w1 h); reflexivity. }
  assert (Hs : settings closed = settings self) by apply close_settings.
  assert (Hk : connect_call closed (loaded_key w2 closed)
               = connect_call self (loaded_key w2 self)).
  { unfold settings in Hs. injection Hs as H1 H2 H3 H4 H5 H6.
    unfold connect_call, loaded_key, load_key. rewrite H1, H2, H3, H4, H5, H6.
    reflexivity. }
  subst calls. split; [|split].
  - rewrite (run_fresh _ _ _ Hc). cbv zeta.
    destruct (do_connect w2 _); [reflexivity|].
    destruct (do_exec w2 _ cmd (timeout closed)); reflexivity.
  - rewrite <- Hk. rewrite (run_fresh _ _ _ Hc). cbv zeta.
    destruct (do_connect w2 _).
    + right. apply in_or_app. right. left. reflexivity.
    + assert (In (AConnect (connect_call closed (loaded_key w2 closed)))
                ((ANewClient :: (load_key w2 closed).2 ++
                    [AConnect (connect_call closed (loaded_key w2 closed))]) ++
                 [AExec (mkHandle true) cmd (timeout closed)])).
      { apply in_or_app. left. right. apply in_or_app. right. left. reflexivity. }
      destruct (do_exec w2 _ cmd (timeout closed)); assumption.
  - rewrite run_connect_count, Hc. reflexivity.
Qed.

(* ===================================================================== *)
(** * Further properties: tasks, ticks and the loop *)
(* ===================================================================== *)

Lemma run_error_caught w self cmd e :
  raises_exceptions w -> (run w self cmd).1.1 = Err e -> is_Exception e = true.
Proof.
  intros [Hconn Hexec]. destruct (_client self) as [h|] eqn:Hc.
  - rewrite (run_with_handle _ _ _ _ Hc).
    destruct (do_exec w h cmd (timeout self)) as [e'|out err] eqn:E; simpl.
    + intros [= <-]. eapply Hexec, E.
    + destruct (negb (is_empty (decode_ignore err)) && is_empty (decode_ignore out));
        [|discriminate].
      intros [= <-]. reflexivity.
  - rewrite (run_fresh _ _ _ Hc). cbv zeta.
    destruct (do_connect w _) as [e'|] eqn:E; simpl.
    + intros [= <-]. eapply Hconn, E.
    + destruct (do_exec w _ cmd (timeout self)) as [e'|out err] eqn:E'; simpl.
      * intros [= <-]. eapply Hexec, E'.
      * destruct (negb (is_empty (decode_ignore err)) && is_empty (decode_ignore out));
          [|discriminate].
        intros [= <-]. reflexivity.
Qed.

(** The [try] block of a task that is not cancelled, in full: the
    events it queues carry the name of its host. *)
Lemma poll_body_ordinary cfg pe hostname cli queue :
  ordinary pe ->
  exists r new,
    poll_body cfg pe hostname cli queue
    = (r, (run (pe_world pe) cli (sample_cmd cfg)).1.2, queue ++ new,
       (run (pe_world pe) cli (sample_cmd cfg)).2) /\
    Forall (fun ev => field ev "host" = Some (VStr hostname)) new /\
    ((exists e, r = Err e /\ is_Exception e = true /\ new = []) \/
     (r = Ok tt /\ (length new <= 1)%nat /\
      (emit_only_above cfg = false -> length new = 1%nat))).
Proof.
  intros [Hcan Hw]. unfold poll_body.
  pose proof (run_error_caught (pe_world pe) cli (sample_cmd cfg)) as Hrun.
  destruct (run _ _ _) as [[r cli'] calls]. simpl in *. rewrite Hcan.
  destruct r as [out|e].
  - destruct (last (nonblank_lines out)) as [line|].
    + destruct (is_empty line).
      * eexists _, []. rewrite app_nil_r. split; [reflexivity|].
        split; [constructor|]. left. eauto.
      * destruct (_compute_cpu_usage_from_vmstat line) as [cpu|e] eqn:Hs.
        -- unfold evaluate_and_emit.
           destruct (emit_only_above cfg); simpl.
           ++ destruct (fge (cpu_usage cpu) (threshold cfg)).
              ** eexists _, [_]. split; [reflexivity|].
                 split; [constructor; [reflexivity|constructor]|]. right.
                 split; [reflexivity|]. split; [simpl; lia|discriminate].
              ** eexists _, []. rewrite app_nil_r. split; [reflexivity|].
                 split; [constructor|]. right.
                 split; [reflexivity|]. split; [simpl; lia|discriminate].
           ++ eexists _, [_]. split; [reflexivity|].
              split; [constructor; [reflexivity|constructor]|]. right.
              split; [reflexivity|]. split; [simpl; lia|reflexivity].
        -- eexists _, []. rewrite app_nil_r. split; [reflexivity|].
           split; [constructor|]. left.
           exists e. split; [reflexivity|]. split; [|reflexivity].
           unfold is_Exception. rewrite (sampler_error _ _ Hs). reflexivity.
    + eexists _, []. rewrite app_nil_r. split; [reflexivity|].
      split; [constructor|]. left. eauto.
  - eexists _, []. rewrite app_nil_r. split; [reflexivity|].
    split; [constructor|]. left.
    exists e. split; [reflexivity|]. split; [apply (Hrun e Hw eq_refl)|reflexivity].
Qed.

(** A task that is not cancelled returns, with at most one event more
    on the queue, an event of its host, and exactly one more when every
    sample is to be emitted. *)
Lemma poll_one_ordinary cfg pe hostname clients cli queue :
  clients !! hostname = Some cli ->
  ordinary pe ->
  exists new,
    poll_one cfg pe hostname clients queue
    = (Ok tt, <[hostname := (run (pe_world pe) cli (sample_cmd cfg)).1.2]> clients,
       queue ++ new, (run (pe_world pe) cli (sample_cmd cfg)).2) /\
    Forall (fun ev => field ev "host" = Some (VStr hostname)) new /\
    (length new <= 1)%nat /\
    (emit_only_above cfg = false -> length new = 1%nat).
Proof.
  intros Hc Ho. unfold poll_one. rewrite Hc.
  destruct (poll_body_ordinary cfg pe hostname cli queue Ho)
    as (r & new & -> & Hh & [(e & -> & He & ->)|(-> & Hl & Hf)]).
  - rewrite He, app_nil_r. eexists [_]. split; [reflexivity|].
    split; [constructor; [reflexivity|constructor]|]. simpl. split; auto.
  - exists new. auto.
Qed.

(** A task changes no session but its own, and adds or removes none. *)
Lemma poll_one_sessions cfg pe hostname clients queue :
  let clients' := (poll_one cfg pe hostname clients queue).1.1.2 in
  dom clients' = dom clients /\
  forall k, k <> hostname -> clients' !! k = clients !! k.
Proof.
  unfold poll_one. destruct (clients !! hostname) as [cli|] eqn:Hc; simpl; [|auto].
  destruct (poll_body _ _ _ _ _) as [[[r cli'] q'] calls].
  assert (H : dom (<[hostname:=cli']> clients) = dom clients /\
              forall k, k <> hostname -> <[hostname:=cli']> clients !! k = clients !! k).
  { split.
    - apply dom_insert_lookup_L. eauto.
    - intros k Hk. apply lookup_insert_ne. congruence. }
  destruct r as [|e]; [exact H|]. destruct (is_Exception e); exact H.
Qed.

(** Neither do the worker threads of the tasks left pending. *)
Lemma pending_sessions cfg polls : forall clients,
  let clients' := (pending cfg polls clients).1 in
  dom clients' = dom clients /\
  forall k, k ∉ List.map fst polls -> clients' !! k = clients !! k.
Proof.
  induction polls as [|[h pe] polls IH]; intros clients; simpl; [auto|].
  destruct (clients !! h) as [cli|] eqn:Hc.
  - specialize (IH (<[h := session_after (pe_world pe) cli
                            (firstn (pe_progress pe)
                               (run (pe_world pe) cli (sample_cmd cfg)).2)]> clients)).
    destruct (pending cfg polls _) as [c2 a2]. simpl in *. destruct IH as [D F].
    split.
    + rewrite D. apply dom_insert_lookup_L. eauto.
    + intros k Hk. apply not_elem_of_cons in Hk as [Hk1 Hk2].
      rewrite F by exact Hk2. apply lookup_insert_ne. congruence.
  - destruct (IH clients) as [D F]. split; [exact D|].
    intros k Hk. apply not_elem_of_cons in Hk as [_ Hk2]. apply F, Hk2.
Qed.

Lemma gather_sessions cfg polls : forall clients queue,
  let clients' := (gather cfg polls clients queue).1.1.2 in
  dom clients' = dom clients /\
  forall k, k ∉ List.map fst polls -> clients' !! k = clients !! k.
Proof.
  induction polls as [|[h pe] polls IH]; intros clients queue; simpl; [auto|].
  pose proof (poll_one_sessions cfg pe h clients queue) as [D1 F1].
  destruct (poll_one cfg pe h clients queue) as [[[r c1] q1] a1]. simpl in D1, F1.
  destruct r as [[]|e].
  - specialize (IH c1 q1). destruct IH as [D2 F2].
    destruct (gather cfg polls c1 q1) as [[[r' c2] q2] a2]. simpl in *.
    split; [congruence|].
    intros k Hk. apply not_elem_of_cons in Hk as [Hk1 Hk2].
    rewrite F2, F1; [reflexivity|exact Hk1|exact Hk2].
  - pose proof (pending_sessions cfg polls c1) as [D2 F2].
    destruct (pending cfg polls c1) as [c2 a2]. simpl in *.
    split; [congruence|].
    intros k Hk. apply not_elem_of_cons in Hk as [Hk1 Hk2].
    rewrite F2, F1; [reflexivity|exact Hk1|exact Hk2].
Qed.







(** Tasks that are not cancelled never make [gather] raise, in whatever
    order they resume; the events come in that order. *)
Lemma gather_ordinary cfg polls : forall clients queue,
  Forall (fun p => p.1 ∈ dom clients /\ ordinary p.2) polls ->
  exists new,
    (gather cfg polls clients queue).1.1.1 = Ok tt /\
    (gather cfg polls clients queue).1.2 = queue ++ new /\
    (length new <= length polls)%nat /\
    sublist (List.map (fun ev => field ev "host") new)
            (List.map (fun p => Some (VStr p.1)) polls) /\
    (emit_only_above cfg = false ->
     List.map (fun ev => field ev "host") new
     = List.map (fun p => Some (VStr p.1)) polls).
Proof.
  induction polls as [|[h pe] polls IH]; intros clients queue HF; simpl.
  - exists []. rewrite app_nil_r. repeat split; auto; constructor.
  - inversion HF as [|? ? [Hd Ho] HF']; subst. simpl in Hd, Ho.
    apply elem_of_dom in Hd as [cli Hc].
    destruct (poll_one_ordinary cfg pe h clients cli queue Hc Ho)
      as (new1 & E1 & Hh1 & L1 & F1).
    pose proof (poll_one_sessions cfg pe h clients queue) as [D1 _].
    rewrite E1 in *. simpl in D1.
    destruct (IH (<[h:=(run (pe_world pe) cli (sample_cmd cfg)).1.2]> clients)
                 (queue ++ new1)) as (new2 & R2 & Q2 & L2 & S2 & F2).
    { eapply Forall_impl; [exact HF'|]. intros p [Hp Hq]. split; [|exact Hq].
      rewrite D1. exact Hp. }
    destruct (gather cfg polls _ _) as [[[r' c2] q2] a2]. simpl in *.
    exists (new1 ++ new2). rewrite R2, Q2, app_assoc, length_app, map_app.
    split; [reflexivity|]. split; [reflexivity|]. split; [lia|].
    destruct new1 as [|ev1 [|ev1' new1]]; [| |simpl in L1; lia].
    + simpl. split; [apply sublist_cons, S2|].
      intros Hf. specialize (F1 Hf). discriminate.
    + inversion Hh1 as [|? ? Hev _]; subst. simpl. rewrite Hev.
      split; [apply sublist_skip, S2|].
      intros Hf. rewrite (F2 Hf). reflexivity.
Qed.

(** X11.  When no task is cancelled and the remote sides raise only
    ordinary exceptions, [gather] over tasks of different hosts returns
    normally whatever fails on whichever host and in whatever order the
    tasks resume.  It keeps the events that were on the queue and adds
    at most one event per task, the events of the tasks coming in the
    order in which the tasks resume; when [emit_only_above] is false it
    adds exactly one per task. *)
Theorem gather_isolates_failures cfg polls clients queue :
  NoDup (List.map fst polls) ->
  Forall (fun p => p.1 ∈ dom clients /\ ordinary p.2) polls ->
  exists new,
    (gather cfg polls clients queue).1.1.1 = Ok tt /\
    (gather cfg polls clients queue).1.2 = queue ++ new /\
    (length new <= length polls)%nat /\
    sublist (List.map (fun ev => field ev "host") new)
            (List.map (fun p => Some (VStr p.1)) polls) /\
    (emit_only_above cfg = false ->
     List.map (fun ev => field ev "host") new
     = List.map (fun p => Some (VStr p.1)) polls).
Proof. intros _. apply gather_ordinary. Qed.

Lemma gather_isolates_failures_witness :
  let bad := mkPollEnv (world_unreachable unreachable) false (str "now") 1 0 in
  let good := example_poll (str "1 2 3 4") in
  let clients : gmap (list N) _SSHClient :=
    <[str "h2" := example_client]> example_clients in
  let polls := completion_order [(str "h1", bad); (str "h2", good)] in
  (NoDup (List.map fst polls) /\
   Forall (fun p => p.1 ∈ dom clients /\ ordinary p.2) polls) /\
  exists new,
    (gather example_config polls clients []).1.1.1 = Ok tt /\
    (gather example_config polls clients []).1.2 = [] ++ new /\
    List.map (fun ev => field ev "host") new
    = [Some (VStr (str "h2")); Some (VStr (str "h1"))].
Proof.
  intros bad good clients polls.
  assert (Ep : polls = [(str "h2", good); (str "h1", bad)]) by reflexivity.
  assert (Hnd : NoDup (List.map fst polls)).
  { rewrite Ep. apply NoDup_cons. split; [|apply NoDup_singleton].
    intros H. apply list_elem_of_singleton in H. vm_compute in H. discriminate. }
  assert (H : Forall (fun p => p.1 ∈ dom clients /\ ordinary p.2) polls).
  { assert (D1 : str "h1" ∈ dom clients)
      by (apply (elem_of_dom_2 _ _ example_client); vm_compute; reflexivity).
    assert (D2 : str "h2" ∈ dom clients)
      by (apply (elem_of_dom_2 _ _ example_client); vm_compute; reflexivity).
    rewrite Ep. constructor; [|constructor; [|constructor]].
    - split; [exact D2|]. split; [reflexivity|]. split; discriminate.
    - split; [exact D1|]. split; [reflexivity|]. split.
      + intros args e [= <-]. reflexivity.
      + intros h cmd t e [= <-]. reflexivity. }
  destruct (gather_isolates_failures example_config polls clients [] Hnd H)
    as (new & H1 & H2 & _ & _ & H3).
  exact (conj (conj Hnd H) (ex_intro _ new (conj H1 (conj H2 (H3 eq_refl))))).
Defined.

(** X13.  [gather] adds and removes no session, and leaves untouched
    the session of every host that is not polled. *)
Theorem gather_keeps_other_sessions cfg polls clients queue :
  dom (gather cfg polls clients queue).1.1.2 = dom clients /\
  forall k, k ∉ List.map fst polls ->
    (gather cfg polls clients queue).1.1.2 !! k = clients !! k.
Proof. apply gather_sessions. Qed.

(** X14.  On a session that holds a handle, when the standard output of
    the sample command decodes to the empty text (it is empty, or holds
    only bytes that cannot be decoded), the task puts exactly one error
    event on the queue and returns.  If the error stream decodes to a
    text that is not empty, the message is "Command error on ", the
    session's host, ": " and that text without the white space around
    it; if the error stream decodes to the empty text as well, the
    message is that of the [IndexError] raised for the missing line. *)
Theorem command_error_event cfg pe hostname clients cli h out err queue :
  clients !! hostname = Some cli ->
  _client cli = Some h ->
  pe_cancelled pe = false ->
  do_exec (pe_world pe) h (sample_cmd cfg) (timeout cli) = ExecOutput out err ->
  decode_ignore out = [] ->
  exists ev,
    poll_one cfg pe hostname clients queue
    = (Ok tt, <[hostname := cli]> clients, queue ++ [ev],
       [AExec h (sample_cmd cfg) (timeout cli)]) /\
    is_error_event ev /\
    field ev "host" = Some (VStr hostname) /\
    (decode_ignore err <> [] ->
     field ev "error"
     = Some (VMsg (Text (str "Command error on " ++ host cli ++ str ": "
                           ++ strip (decode_ignore err))))) /\
    (decode_ignore err = [] ->
     field ev "error" = Some (VMsg (Text (str "list index out of range")))).
Proof.
  intros Hc Hh Hcan Hexec Hout.
  unfold poll_one, poll_body. rewrite Hc, (run_with_handle _ _ _ _ Hh), Hexec, Hout.
  destruct (decode_ignore err) as [|c text] eqn:Herr; simpl; rewrite Hcan; simpl.
  - eexists. split; [reflexivity|]. split; [apply error_event_shape|].
    split; [reflexivity|]. split; [congruence|reflexivity].
  - eexists. split; [reflexivity|]. split; [apply error_event_shape|].
    split; [reflexivity|]. split; [reflexivity|discriminate].
Qed.

Lemma command_error_event_witness :
  let cli := set_client example_client (Some (mkHandle true)) in
  let clients : gmap (list N) _SSHClient := {[ str "h1" := cli ]} in
  let err := utf8_encode (str "ksh: vmstat: not found ") in
  let pe := mkPollEnv (world_bytes [Byte.xff] err) false (str "now") 0 0 in
  (clients !! str "h1" = Some cli /\ decode_ignore [Byte.xff] = []) /\
  exists ev,
    (poll_one example_config pe (str "h1") clients []).1.2 = [ev] /\
    field ev "error"
    = Some (VMsg (Text (str "Command error on h1: ksh: vmstat: not found"))).
Proof.
  intros cli clients err pe.
  assert (H1 : clients !! str "h1" = Some cli) by (vm_compute; reflexivity).
  assert (H2 : decode_ignore [Byte.xff] = []) by reflexivity.
  destruct (command_error_event example_config pe (str "h1") clients cli
              (mkHandle true) [Byte.xff] err [] H1 eq_refl eq_refl eq_refl H2)
    as (ev & E & _ & _ & Hm & _).
  refine (conj (conj H1 H2) (ex_intro _ ev (conj _ _))).
  - rewrite E. reflexivity.
  - rewrite Hm; [vm_compute; reflexivity|]. vm_compute. discriminate.
Defined.

(** ** The set-up of the sessions *)






(** ** Ticks and the loop *)

Lemma imap_fst_hosts {A} (f : nat -> A) (hosts : list (list N)) :
  List.map fst (imap (fun k h => (h, f k)) hosts) = hosts.
Proof.
  revert f. induction hosts as [|h hosts IH]; intros f; simpl; [reflexivity|].
  f_equal. apply (IH (f ∘ S)).
Qed.






(* ===================================================================== *)
(** * Further properties: the clean-up *)
(* ===================================================================== *)

Lemma insertion_order_spec ks : forall seen k,
  k ∈ insertion_order seen ks <-> k ∈ ks /\ k ∉ seen.
Proof.
  induction ks as [|k0 ks IH]; intros seen k; simpl.
  - rewrite !elem_of_nil. tauto.
  - destruct (decide (k0 ∈ seen)) as [Hs|Hs].
    + rewrite IH, elem_of_cons. split; [tauto|].
      intros [[->|H] Hn]; [contradiction|tauto].
    + rewrite !elem_of_cons, IH, !elem_of_cons. split.
      * intros [->|[H Hn]]; [tauto|]. split; [tauto|]. intros Hk. apply Hn. tauto.
      * intros [[->|H] Hn]; [tauto|].
        destruct (decide (k = k0)) as [->|Hne]; [tauto|].
        right. split; [exact H|]. intros [E|E]; [congruence|contradiction].
Qed.

Lemma insertion_order_NoDup ks : forall seen, NoDup (insertion_order seen ks).
Proof.
  induction ks as [|k0 ks IH]; intros seen; simpl; [constructor|].
  destruct (decide (k0 ∈ seen)); [apply IH|].
  constructor; [|apply IH].
  rewrite insertion_order_spec, elem_of_cons. tauto.
Qed.

Lemma close_no_raise w cli :
  (forall h, do_close w h = None) ->
  close w cli
  = (Ok tt, set_client cli None,
     match _client cli with Some h => [AClose h] | None => [] end).
Proof.
  intros Hw. unfold close. destruct (_client cli) as [h|]; [|reflexivity].
  rewrite Hw. reflexivity.
Qed.

Lemma visited_cons (m : gmap (list N) _SSHClient) k0 rest cli k :
  m !! k0 = Some cli ->
  (if decide (k ∈ rest)
   then (fun cli => set_client cli None) <$> <[k0 := set_client cli None]> m !! k
   else <[k0 := set_client cli None]> m !! k)
  = if decide (k ∈ k0 :: rest)
    then (fun cli => set_client cli None) <$> m !! k
    else m !! k.
Proof.
  intros E. destruct (decide (k = k0)) as [->|Hne].
  - rewrite lookup_insert_eq, E.
    destruct (decide (k0 ∈ k0 :: rest)) as [_|H]; [|exfalso; apply H; left].
    destruct (decide (k0 ∈ rest)); reflexivity.
  - rewrite lookup_insert_ne by congruence.
    destruct (decide (k ∈ rest)) as [H|H], (decide (k ∈ k0 :: rest)) as [H'|H'];
      try reflexivity.
    + exfalso. apply H'. right. exact H.
    + exfalso. apply elem_of_cons in H' as [?|?]; contradiction.
Qed.

Lemma visited_cons_absent (m : gmap (list N) _SSHClient) k0 rest k :
  m !! k0 = None ->
  (if decide (k ∈ rest)
   then (fun cli => set_client cli None) <$> m !! k
   else m !! k)
  = if decide (k ∈ k0 :: rest)
    then (fun cli => set_client cli None) <$> m !! k
    else m !! k.
Proof.
  intros E. destruct (decide (k = k0)) as [->|Hne].
  - rewrite E. destruct (decide (k0 ∈ rest)), (decide (k0 ∈ k0 :: rest)); reflexivity.
  - destruct (decide (k ∈ rest)) as [H|H], (decide (k ∈ k0 :: rest)) as [H'|H'];
      try reflexivity.
    + exfalso. apply H'. right. exact H.
    + exfalso. apply elem_of_cons in H' as [?|?]; contradiction.
Qed.

Lemma close_all_sessions w order :
  (forall k h, do_close (w k) h = None) ->
  forall clients,
  (close_all w order clients).1.1 = Ok tt /\
  forall k, (close_all w order clients).1.2 !! k
            = if decide (k ∈ order)
              then (fun cli => set_client cli None) <$> clients !! k
              else clients !! k.
Proof.
  intros Hw. induction order as [|k0 rest IH]; intros clients; simpl.
  - split; [reflexivity|]. intros k. reflexivity.
  - destruct (clients !! k0) as [cli|] eqn:E.
    + rewrite (close_no_raise _ _ (Hw k0)).
      destruct (IH (<[k0 := set_client cli None]> clients)) as [R L].
      destruct (close_all w rest _) as [[r c] a]. simpl in R, L. simpl.
      split; [exact R|]. intros k. rewrite L. apply visited_cons, E.
    + destruct (IH clients) as [R L]. split; [exact R|]. intros k. rewrite L.
      apply visited_cons_absent, E.
Qed.

Lemma held_handles_cons clients k order :
  held_handles clients (k :: order)
  = match clients !! k ≫= _client with
    | Some h => h :: held_handles clients order
    | None => held_handles clients order
    end.
Proof. reflexivity. Qed.

Lemma held_handles_insert clients k cli order :
  k ∉ order ->
  held_handles (<[k := cli]> clients) order = held_handles clients order.
Proof.
  intros Hk. induction order as [|k' order IH]; [reflexivity|].
  apply not_elem_of_cons in Hk as [Hne Hk].
  rewrite !held_handles_cons, IH by exact Hk.
  rewrite lookup_insert_ne by congruence. reflexivity.
Qed.

Lemma close_all_calls w order :
  (forall k h, do_close (w k) h = None) ->
  NoDup order ->
  forall clients,
  (close_all w order clients).2 = List.map AClose (held_handles clients order).
Proof.
  intros Hw Hnd. induction Hnd as [|k0 rest Hk0 Hnd IH]; intros clients.
  - reflexivity.
  - rewrite held_handles_cons. cbn [close_all].
    destruct (clients !! k0) as [cli|] eqn:E; cbn [mbind option_bind].
    + rewrite (close_no_raise _ _ (Hw k0)).
      pose proof (IH (<[k0 := set_client cli None]> clients)) as C.
      destruct (close_all_sessions w rest Hw (<[k0 := set_client cli None]> clients))
        as [R _].
      destruct (close_all w rest _) as [[r c] a]. simpl in R, C. subst r a. simpl.
      rewrite held_handles_insert by exact Hk0.
      destruct (_client cli); reflexivity.
    + apply IH.
Qed.

(** X16.  When no handle raises on being closed, the clean-up returns
    normally; afterwards every session it visited is without handle and
    otherwise as it was, every other session is untouched; and when no
    key is visited twice, the handles held beforehand are closed once
    each, in the order of the visit. *)
Theorem close_all_closes_sessions w order clients :
  (forall k h, do_close (w k) h = None) ->
  (close_all w order clients).1.1 = Ok tt /\
  (forall k, (close_all w order clients).1.2 !! k
             = if decide (k ∈ order)
               then (fun cli => set_client cli None) <$> clients !! k
               else clients !! k) /\
  (NoDup order ->
   (close_all w order clients).2 = List.map AClose (held_handles clients order)).
Proof.
  intros Hw. destruct (close_all_sessions w order Hw clients) as [R L].
  split; [exact R|]. split; [exact L|].
  intros Hnd. apply close_all_calls; assumption.
Qed.

Lemma close_all_closes_sessions_witness :
  let connected := set_client example_client (Some (mkHandle true)) in
  let clients : gmap (list N) _SSHClient :=
    {[ str "h1" := connected; str "h2" := example_client ]} in
  let w := fun _ : list N => world_output [] [] in
  (forall k h, do_close (w k) h = None) /\
  (close_all w [str "h1"; str "h2"] clients).1.1 = Ok tt /\
  (close_all w [str "h1"; str "h2"] clients).1.2 !! str "h1" = Some example_client.
Proof.
  intros connected clients w.
  assert (Hw : forall k h, do_close (w k) h = None) by (intros; reflexivity).
  destruct (close_all_closes_sessions w [str "h1"; str "h2"] clients Hw)
    as (R & L & _).
  refine (conj Hw (conj R _)).
  rewrite L. vm_compute. reflexivity.
Defined.

Lemma close_all_app_ok w pre :
  (forall k h, k ∈ pre -> do_close (w k) h = None) ->
  forall post clients,
  exists mid,
    (forall k, mid !! k = if decide (k ∈ pre)
                          then (fun cli => set_client cli None) <$> clients !! k
                          else clients !! k) /\
    (close_all w (pre ++ post) clients).1 = (close_all w post mid).1.
Proof.
  intros Hw. induction pre as [|k0 pre IH]; intros post clients; simpl.
  - exists clients. split; [|reflexivity]. intros k. reflexivity.
  - assert (Hw' : forall k h, k ∈ pre -> do_close (w k) h = None).
    { intros k h Hk. apply Hw. right. exact Hk. }
    destruct (clients !! k0) as [cli|] eqn:E.
    + rewrite (close_no_raise (w k0) cli) by (intros h; apply Hw; left).
      destruct (IH Hw' post (<[k0 := set_client cli None]> clients)) as (mid & L & C).
      exists mid. split.
      * intros k. rewrite L. apply visited_cons, E.
      * destruct (close_all w (pre ++ post) _) as [[r c] a].
        destruct (close_all w post mid) as [[r' c'] a'].
        simpl in C. injection C as -> ->. simpl.
        destruct r'; reflexivity.
    + destruct (IH Hw' post clients) as (mid & L & C).
      exists mid. split; [|exact C].
      intros k. rewrite L. apply visited_cons_absent, E.
Qed.

(** X17.  A handle that raises on being closed ends the clean-up there:
    the exception is the clean-up's, the session concerned has lost its
    handle all the same, and every session that comes later in the
    visit keeps its handle, so stays open. *)
Theorem close_all_stops_at_raise w pre k post clients cli h e :
  (forall k' h', k' ∈ pre -> do_close (w k') h' = None) ->
  clients !! k = Some cli ->
  _client cli = Some h ->
  do_close (w k) h = Some e ->
  (close_all w (pre ++ k :: post) clients).1.1 = Err e /\
  (close_all w (pre ++ k :: post) clients).1.2 !! k = Some (set_client cli None) /\
  (forall k', k' ∉ pre -> k' <> k ->
     (close_all w (pre ++ k :: post) clients).1.2 !! k' = clients !! k').
Proof.
  intros Hw Hc Hh He.
  assert (Hk : k ∉ pre).
  { intros Hk. rewrite (Hw k h Hk) in He. discriminate. }
  destruct (close_all_app_ok w pre Hw (k :: post) clients) as (mid & L & C).
  rewrite C. simpl.
  assert (Em : mid !! k = Some cli).
  { rewrite L, decide_False by exact Hk. exact Hc. }
  rewrite Em. unfold close. rewrite Hh, He. simpl.
  split; [reflexivity|]. split; [apply lookup_insert_eq|].
  intros k' Hk' Hne. rewrite lookup_insert_ne by congruence.
  rewrite L, decide_False by exact Hk'. reflexivity.
Qed.

Lemma close_all_stops_at_raise_witness :
  let connected := set_client example_client (Some (mkHandle true)) in
  let clients : gmap (list N) _SSHClient :=
    {[ str "h1" := connected; str "h2" := connected ]} in
  let w := fun _ : list N => world_close_raises unreachable in
  let res := close_all w ([] ++ str "h1" :: [str "h2"]) clients in
  (clients !! str "h1" = Some connected /\
   do_close (w (str "h1")) (mkHandle true) = Some unreachable) /\
  res.1.1 = Err unreachable /\
  res.1.2 !! str "h2" = Some connected.
Proof.
  intros connected clients w res.
  assert (H1 : clients !! str "h1" = Some connected) by (vm_compute; reflexivity).
  assert (H0 : forall k' h', k' ∈ @nil (list N) -> do_close (w k') h' = None).
  { intros k' h' Hk. apply elem_of_nil in Hk. destruct Hk. }
  destruct (close_all_stops_at_raise w [] (str "h1") [str "h2"] clients connected
              (mkHandle true) unreachable H0 H1 eq_refl eq_refl) as (R & _ & F).
  refine (conj (conj H1 eq_refl) (conj R _)).
  subst res. rewrite F.
  - vm_compute. reflexivity.
  - apply not_elem_of_nil.
  - intros E. vm_compute in E. discriminate.
Defined.
